(** * Safety RAG ingestion scripts: a shallow embedding

    The development follows the two batch scripts of the repository:
    - [attached_assets/build_safety_rag_db_1754373457149.py]: the record
      loaders (accident cases, education material), the segmentation of the
      regulation text into articles and the hand-over to the splitter and
      the vector store;
    - [scripts/pdf_chunking.py]: the stand-alone chunking script with its
      command line.

    Python strings are sequences of Unicode code points; they are modelled
    as lists of code points.  Regular expressions are modelled by a small
    backtracking matcher with the constructs the two patterns of the
    builder use. *)

From Stdlib Require Import String Ascii DecimalNat.
From stdpp Require Import gmap list fin_maps.

Set Default Proof Using "Type".

(** ** Text *)

Definition char := N.
Definition text := list char.

#[global] Instance char_eq_dec : EqDecision char := N.eq_dec.

Local Open Scope N_scope.

(** Source literals are UTF-8; [u] decodes a literal into its code points,
    as the Python reader does for a [str] literal. *)
Fixpoint utf8_decode (bs : list N) : text :=
  match bs with
  | [] => []
  | b0 :: bs1 =>
    if b0 <? 128 then b0 :: utf8_decode bs1
    else match bs1 with
    | [] => [b0]
    | b1 :: bs2 =>
      if b0 <? 224 then ((b0 - 192) * 64 + (b1 - 128)) :: utf8_decode bs2
      else match bs2 with
      | [] => [b0; b1]
      | b2 :: bs3 =>
        if b0 <? 240
        then ((b0 - 224) * 4096 + (b1 - 128) * 64 + (b2 - 128)) :: utf8_decode bs3
        else match bs3 with
        | [] => [b0; b1; b2]
        | b3 :: bs4 =>
          ((b0 - 240) * 262144 + (b1 - 128) * 4096 + (b2 - 128) * 64 + (b3 - 128))
            :: utf8_decode bs4
        end
      end
    end
  end.

Definition u (s : string) : text :=
  utf8_decode (map N_of_ascii (list_ascii_of_string s)).

(** The line feed, Python's ["\n"]. *)
Definition NL : char := 10.

(** The two syllables of a clause marker, U+C81C and U+C870. *)
Definition JE : char := 51228.
Definition JO : char := 51312.

(** *** Character classes

    [is_decimal] is the class behind [\d] for [str] patterns (Unicode
    decimal digits, [str.isdecimal]); [is_space] is the class that
    [str.strip()] removes ([str.isspace]).  Both tables are those of
    Unicode 14. *)

Definition decimal_zeros : list N :=
  [48; 1632; 1776; 1984; 2406; 2534; 2662; 2790; 2918; 3046; 3174; 3302;
   3430; 3558; 3664; 3792; 3872; 4160; 4240; 6112; 6160; 6470; 6608; 6784;
   6800; 6992; 7088; 7232; 7248; 42528; 43216; 43264; 43472; 43504; 43600;
   44016; 65296; 66720; 68912; 69734; 69872; 69942; 70096; 70384; 70736;
   70864; 71248; 71360; 71472; 71904; 72016; 72784; 73040; 73120; 92768;
   92864; 93008; 120782; 120792; 120802; 120812; 120822; 123200; 123632;
   125264; 130032].

Definition is_decimal (c : char) : bool :=
  existsb (fun z => (z <=? c) && (c <? z + 10)) decimal_zeros.

Definition is_space (c : char) : bool :=
  ((9 <=? c) && (c <=? 13)) || ((28 <=? c) && (c <=? 32))
  || (c =? 133) || (c =? 160) || (c =? 5760)
  || ((8192 <=? c) && (c <=? 8202))
  || (c =? 8232) || (c =? 8233) || (c =? 8239) || (c =? 8287) || (c =? 12288).

(** *** String methods used by the scripts *)

Fixpoint lstrip (s : text) : text :=
  match s with
  | c :: s' => if is_space c then lstrip s' else s
  | [] => []
  end.

Definition rstrip (s : text) : text := rev (lstrip (rev s)).

(** [s.strip()] *)
Definition strip (s : text) : text := rstrip (lstrip s).

(** [s.split(sep)] for a one-character separator: the pieces between the
    occurrences of [sep]; never the empty list. *)
Fixpoint split (sep : char) (s : text) : list text :=
  match s with
  | [] => [[]]
  | c :: s' =>
    if decide (c = sep) then [] :: split sep s'
    else match split sep s' with
         | p :: ps => (c :: p) :: ps
         | [] => [[c]]
         end
  end.

(** [sep.join(parts)] for a one-character separator. *)
Fixpoint join (sep : char) (parts : list text) : text :=
  match parts with
  | [] => []
  | [p] => p
  | p :: ps => p ++ sep :: join sep ps
  end.

(** [str(n)] for a non-negative [int]. *)
Fixpoint digits_of_uint (d : Decimal.uint) : text :=
  match d with
  | Decimal.Nil => []
  | Decimal.D0 d' => 48 :: digits_of_uint d'
  | Decimal.D1 d' => 49 :: digits_of_uint d'
  | Decimal.D2 d' => 50 :: digits_of_uint d'
  | Decimal.D3 d' => 51 :: digits_of_uint d'
  | Decimal.D4 d' => 52 :: digits_of_uint d'
  | Decimal.D5 d' => 53 :: digits_of_uint d'
  | Decimal.D6 d' => 54 :: digits_of_uint d'
  | Decimal.D7 d' => 55 :: digits_of_uint d'
  | Decimal.D8 d' => 56 :: digits_of_uint d'
  | Decimal.D9 d' => 57 :: digits_of_uint d'
  end.

Definition str_nat (n : nat) : text := digits_of_uint (Nat.to_uint n).

(** ** Regular expressions

    The constructs of the patterns [(제\d+조.*?)(?=제\d+조|\Z)] and
    [제(\d+)조].  Both patterns have one capture group, so the matcher
    threads the text captured by group 1. *)

Inductive regex : Type :=
| Chr (c : char)            (* a literal character *)
| Digit                     (* \d *)
| Dot                       (* . *)
| Cat (r1 r2 : regex)       (* r1 r2 *)
| Alt (r1 r2 : regex)       (* r1|r2, tried in this order *)
| Plus (r : regex)          (* r+, greedy *)
| LazyStar (r : regex)      (* r*?, non-greedy *)
| Group (r : regex)         (* (r), capture group 1 *)
| Ahead (r : regex)         (* (?=r) *)
| EndZ.                     (* \Z *)

Declare Scope regex_scope.
Delimit Scope regex_scope with re.
Bind Scope regex_scope with regex.
Infix "⊳" := Cat (at level 60, right associativity) : regex_scope.

Local Open Scope nat_scope.

(** A matcher hands the rest of the text and group 1 to a continuation. *)
Definition cont (A : Type) : Type := text → option text → option A.

(** The iterations of [r+] after the first one: the longest repetition is
    tried first, and the continuation [k] is tried where the repetition
    stops or has to give back. *)
Fixpoint greedy_more {A : Type} (body : text → option text → cont A → option A)
    (k : cont A) (n : nat) (s0 : text) (g0 : option text) : option A :=
  match n with
  | 0 => k s0 g0
  | S n' =>
    match body s0 g0
            (λ s1 g1, if length s1 <? length s0
                      then greedy_more body k n' s1 g1 else None) with
    | Some a => Some a
    | None => k s0 g0
    end
  end.

(** The iterations of [r*?]: the continuation [k] is tried first, and one
    more repetition only when it fails. *)
Fixpoint lazy_more {A : Type} (body : text → option text → cont A → option A)
    (k : cont A) (n : nat) (s0 : text) (g0 : option text) : option A :=
  match k s0 g0 with
  | Some a => Some a
  | None =>
    match n with
    | 0 => None
    | S n' =>
      body s0 g0
        (λ s1 g1, if length s1 <? length s0
                  then lazy_more body k n' s1 g1 else None)
    end
  end.

Section Matcher.
(** [re.DOTALL]: whether [.] also matches the line feed. *)
Variable dotall : bool.

(** The matcher is written with a success continuation: [rmatch r A s g k]
    matches [r] at the head of [s] with group 1 currently [g], and hands
    the rest of the text and the group to [k]; when [k] fails the matcher
    backtracks into [r].  Repetitions iterate at most [length s] times and
    an iteration that consumes nothing is not repeated. *)
Fixpoint rmatch (r : regex) (A : Type) (s : text) (g : option text)
    (k : cont A) {struct r} : option A :=
  match r with
  | Chr c =>
    match s with
    | x :: s' => if decide (x = c) then k s' g else None
    | [] => None
    end
  | Digit =>
    match s with
    | x :: s' => if is_decimal x then k s' g else None
    | [] => None
    end
  | Dot =>
    match s with
    | x :: s' => if dotall || negb (bool_decide (x = NL)) then k s' g else None
    | [] => None
    end
  | Cat r1 r2 => rmatch r1 A s g (λ s1 g1, rmatch r2 A s1 g1 k)
  | Alt r1 r2 =>
    match rmatch r1 A s g k with
    | Some a => Some a
    | None => rmatch r2 A s g k
    end
  | Plus r1 =>
    rmatch r1 A s g (λ s1 g1, greedy_more (rmatch r1 A) k (length s1) s1 g1)
  | LazyStar r1 => lazy_more (rmatch r1 A) k (length s) s g
  | Group r1 =>
    rmatch r1 A s g (λ s1 _, k s1 (Some (take (length s - length s1) s)))
  | Ahead r1 =>
    match rmatch r1 (option text) s g (λ _ g1, Some g1) with
    | Some g1 => k s g1
    | None => None
    end
  | EndZ =>
    match s with
    | [] => k s g
    | _ :: _ => None
    end
  end.

(** A match object: where the match starts, where it ends (both as the
    remaining text) and group 1. *)
Record rematch := MkMatch {
  m_start : text;
  m_end : text;
  m_group1 : option text
}.

(** [m.group(0)] *)
Definition group0 (m : rematch) : text :=
  take (length (m_start m) - length (m_end m)) (m_start m).

(** One attempt at the head of [s]; with [must_advance] an empty match is
    refused (the scanner sets it after an empty match). *)
Definition match_here (r : regex) (s : text) (must_advance : bool) : option rematch :=
  rmatch r rematch s None
    (λ s1 g1, if must_advance && (length s1 =? length s) then None
              else Some (MkMatch s s1 g1)).

(** The leftmost match at or after the head of [s]. *)
Fixpoint search_from (r : regex) (s : text) (must_advance : bool) : option rematch :=
  match match_here r s must_advance with
  | Some m => Some m
  | None =>
    match s with
    | [] => None
    | _ :: s' => search_from r s' false
    end
  end.

(** [re.search(r, s)] *)
Definition re_search (r : regex) (s : text) : option rematch :=
  search_from r s false.

(** What [findall] lists for a match when the pattern has one group:
    group 1, or the empty string when the group took no part. *)
Definition findall_item (m : rematch) : text :=
  match m_group1 m with
  | Some t => t
  | None => []
  end.

Fixpoint findall_loop (fuel : nat) (r : regex) (s : text) (must_advance : bool)
    : list text :=
  match fuel with
  | 0 => []
  | S fuel' =>
    match search_from r s must_advance with
    | None => []
    | Some m =>
      findall_item m
        :: findall_loop fuel' r (m_end m) (length (m_end m) =? length (m_start m))
    end
  end.

(** [re.findall(r, s)] for a pattern with one group.  A round either
    consumes a character or follows an empty match, hence the bound on the
    rounds; for the clause pattern the result is shown below to be the
    segmentation of the text, whatever the bound. *)
Definition findall (r : regex) (s : text) : list text :=
  findall_loop (2 * length s + 2) r s false.
End Matcher.

Local Open Scope regex_scope.

(** [제\d+조] *)
Definition marker_re : regex := Chr JE ⊳ Plus Digit ⊳ Chr JO.

(** [pattern = r"(제\d+조.*?)(?=제\d+조|\Z)"] *)
Definition pattern : regex :=
  Group (Chr JE ⊳ Plus Digit ⊳ Chr JO ⊳ LazyStar Dot) ⊳ Ahead (Alt marker_re EndZ).

(** [r"제(\d+)조"] *)
Definition number_re : regex := Chr JE ⊳ Group (Plus Digit) ⊳ Chr JO.

Local Close Scope regex_scope.

(** ** Data model *)

(** A JSON or metadata value.  Strings and integers are kept as they are;
    every other value (null, booleans, floats, arrays, objects) is kept by
    the text that [str()] prints for it, which is all the scripts do with
    such a value. *)
Inductive value : Type :=
| VStr (s : text)
| VInt (n : Z)
| VOther (shown : text).

#[global] Instance value_eq_dec : EqDecision value.
Proof. solve_decision. Defined.

(** [str(n)] for an [int]. *)
Definition str_int (n : Z) : text :=
  match n with
  | Zneg p => 45%N :: str_nat (Pos.to_nat p)
  | _ => str_nat (Z.to_nat n)
  end.

(** A replacement field [{v}] of an f-string: [format(v, "")]. *)
Definition format_value (v : value) : text :=
  match v with
  | VStr s => s
  | VInt n => str_int n
  | VOther shown => shown
  end.

(** A record: one element of the JSON array, a [dict]. *)
Abbreviation record := (gmap text value).

(** [langchain.schema.Document] *)
Record Document : Type := MkDocument {
  page_content : text;
  metadata : gmap text value
}.

(** ** Exceptions and effects *)

(** [KeyError] is what a missing [dict] key raises; [SystemExit] is what
    [sys.exit] raises; [Failure] stands for any other [Exception] raised by
    a collaborator (file system, JSON decoder, PDF loader, splitter, vector
    store), with the text [str(e)] gives. *)
Inductive exn : Type :=
| KeyError (key : text)
| SystemExit (code : Z)
| Failure (message : text).

(** [str(e)] (for [KeyError]: the [repr] of a key without quotes or
    escapes in it). *)
Definition exn_str (e : exn) : text :=
  match e with
  | KeyError k => 39%N :: k ++ [39%N]
  | SystemExit c => str_int c
  | Failure m => m
  end.

(** Whether [except Exception] catches [e]: [SystemExit] derives from
    [BaseException] only. *)
Definition is_Exception (e : exn) : bool :=
  match e with
  | SystemExit _ => false
  | _ => true
  end.

Inductive result (A : Type) : Type :=
| Ok (a : A)
| Raise (e : exn).
Arguments Ok {A} a.
Arguments Raise {A} e.

#[global] Instance result_ret : MRet result := λ A a, Ok a.
#[global] Instance result_bind : MBind result := λ A B f m,
  match m with
  | Ok a => f a
  | Raise e => Raise e
  end.

(** [d[k]] *)
Definition getitem (d : record) (k : text) : result value :=
  match d !! k with
  | Some v => Ok v
  | None => Raise (KeyError k)
  end.

(** [d.get(k, dflt)] *)
Definition get (d : gmap text value) (k : text) (dflt : value) : value :=
  default dflt (d !! k).

(** A [for] loop that appends one item per element and stops at the first
    exception. *)
Fixpoint for_each {A B : Type} (f : A → result B) (l : list A) : result (list B) :=
  match l with
  | [] => Ok []
  | a :: l' => b ← f a; bs ← for_each f l'; mret (b :: bs)
  end.

(** One object of the JSON array written by the chunking script. *)
Record chunk : Type := MkChunk {
  chunk_id : nat;
  page_number : value;
  source : value;
  content : text;
  title : text;
  category : text;
  type_ : text
}.

(** What a run leaves behind, in order. *)
Inductive event : Type :=
| Stdout (line : text)                           (* a line on standard output *)
| WriteJson (path : text) (chunks : list chunk) (* the output file written *)
| Persist (dir : text) (docs : list Document)   (* the vector store built *)
| Traceback (e : exn).                          (* the interpreter's report of an uncaught exception *)

(** A computation: the events so far and how it ended. *)
Record io (A : Type) : Type := IO {
  trace : list event;
  outcome : result A
}.
Arguments IO {A} trace outcome.
Arguments trace {A} _.
Arguments outcome {A} _.

#[global] Instance io_ret : MRet io := λ A a, IO [] (Ok a).
#[global] Instance io_bind : MBind io := λ A B f m,
  match outcome m with
  | Ok a => IO (trace m ++ trace (f a)) (outcome (f a))
  | Raise e => IO (trace m) (Raise e)
  end.

Definition print (line : text) : io unit := IO [Stdout line] (Ok tt).
Definition call {A : Type} (r : result A) : io A := IO [] r.
Definition emit (e : event) : io unit := IO [e] (Ok tt).

(** [sys.exit(code)] *)
Definition sys_exit {A : Type} (code : Z) : io A := IO [] (Raise (SystemExit code)).

(** [try: body / except Exception as e: handler e] *)
Definition try_except {A : Type} (body : io A) (handler : exn → io A) : io A :=
  match outcome body with
  | Ok a => body
  | Raise e =>
    if is_Exception e
    then IO (trace body ++ trace (handler e)) (outcome (handler e))
    else body
  end.

(** The collaborators of the scripts: everything behind a library call. *)
Record world : Type := MkWorld {
  (** [json.load(open(path, "r", encoding="utf-8"))], the file being a JSON
      array of objects *)
  json_load : text → result (list record);
  (** [PyPDFLoader(path).load()] *)
  pdf_load : text → result (list Document);
  (** [RecursiveCharacterTextSplitter(chunk_size, chunk_overlap,
      separators).split_documents(docs)]; [None] for the default separators *)
  split_documents : nat → nat → option (list text) → list Document → result (list Document);
  (** [json.dump(chunks, open(path, "w", encoding="utf-8"), ...)] *)
  json_dump : text → list chunk → result unit;
  (** [Chroma.from_documents(docs, OpenAIEmbeddings(...), dir)] and
      [persist()] *)
  chroma_build : list Document → text → result unit
}.

(** How a script run ends: the events and the exit status of the process.
    An uncaught exception is reported and gives status 1. *)
Record process : Type := MkProcess {
  events : list event;
  exit_status : Z
}.

Definition run_script (script : io unit) : process :=
  match outcome script with
  | Ok _ => MkProcess (trace script) 0
  | Raise (SystemExit c) => MkProcess (trace script) c
  | Raise e => MkProcess (trace script ++ [Traceback e]) 1
  end.

(** ** The builder script *)

Definition ACCIDENT_JSON : text := u "accident_cases_for_rag.json".
Definition EDUCATION_JSON : text := u "education_data.json".
Definition LAW_PDF : text := u "산업안전보건기준.pdf".
Definition CHROMA_DB_DIR : text := u "safety_rag_db".

(** *** Accident cases *)

(** The body of the loop over [accident_cases]: the f-string reads the
    twelve fields from left to right, then the metadata reads the title. *)
Definition accident_doc (case : record) : result Document :=
  title ← getitem case (u "title");
  date ← getitem case (u "date");
  location ← getitem case (u "location");
  industry ← getitem case (u "industry");
  work_type ← getitem case (u "work_type");
  accident_type ← getitem case (u "accident_type");
  damage ← getitem case (u "damage");
  summary ← getitem case (u "summary");
  direct_cause ← getitem case (u "direct_cause");
  root_cause ← getitem case (u "root_cause");
  risk_keywords ← getitem case (u "risk_keywords");
  prevention ← getitem case (u "prevention");
  let content :=
    u "제목: " ++ format_value title ++ [NL] ++
    u "발생일자: " ++ format_value date ++ [NL] ++
    u "발생장소: " ++ format_value location ++ [NL] ++
    u "업종: " ++ format_value industry ++ [NL] ++
    u "작업유형: " ++ format_value work_type ++ [NL] ++
    u "재해형태: " ++ format_value accident_type ++ [NL] ++
    u "피해정도: " ++ format_value damage ++ [NL] ++
    u "사고개요: " ++ format_value summary ++ [NL] ++
    u "직접원인: " ++ format_value direct_cause ++ [NL] ++
    u "근본원인: " ++ format_value root_cause ++ [NL] ++
    u "위험요인 키워드: " ++ format_value risk_keywords ++ [NL] ++
    u "예방대책: " ++ format_value prevention in
  title' ← getitem case (u "title");
  mret (MkDocument content {[ u "type" := VStr (u "accident"); u "title" := title' ]}).

Definition load_accidents (w : world) : io (list Document) :=
  accident_cases ← call (json_load w ACCIDENT_JSON);
  accident_docs ← call (for_each accident_doc accident_cases);
  print (u "[INFO] 사고사례 로드 완료: " ++ str_nat (length accident_docs) ++ u "건");;
  mret accident_docs.

(** *** Education material *)

Definition edu_doc (item : record) : result Document :=
  title ← getitem item (u "title");
  date ← getitem item (u "date");
  doc_number ← getitem item (u "doc_number");
  type ← getitem item (u "type");
  keywords ← getitem item (u "keywords");
  content_field ← getitem item (u "content");
  url ← getitem item (u "url");
  file_url ← getitem item (u "file_url");
  let content :=
    u "제목: " ++ format_value title ++ [NL] ++
    u "작성일자: " ++ format_value date ++ [NL] ++
    u "발간번호: " ++ format_value doc_number ++ [NL] ++
    u "자료형태: " ++ format_value type ++ [NL] ++
    u "키워드: " ++ format_value keywords ++ [NL] ++
    u "내용: " ++ format_value content_field ++ [NL] ++
    u "URL: " ++ format_value url ++ [NL] ++
    u "첨부파일: " ++ format_value file_url in
  title' ← getitem item (u "title");
  mret (MkDocument content {[ u "type" := VStr (u "education"); u "title" := title' ]}).

Definition load_education (w : world) : io (list Document) :=
  education_data ← call (json_load w EDUCATION_JSON);
  edu_docs ← call (for_each edu_doc education_data);
  print (u "[INFO] 교육자료 로드 완료: " ++ str_nat (length edu_docs) ++ u "건");;
  mret edu_docs.

(** *** The regulation *)

(** [law_number.group(1) if law_number else ""] *)
Definition law_number_of (law_number : option rematch) : value :=
  match law_number with
  | Some m =>
    match m_group1 m with
    | Some digits => VStr digits
    | None => VOther (u "None")
    end
  | None => VStr []
  end.

(** The body of the loop over [matches]. *)
Definition law_doc (m : text) : Document :=
  let header_line := strip (hd [] (split NL m)) in
  let law_number := re_search false number_re header_line in
  let law_title := header_line in
  MkDocument (strip m)
    {[ u "type" := VStr (u "law");
       u "law_number" := law_number_of law_number;
       u "title" := VStr law_title;
       u "source" := VStr (u "산업안전보건기준") ]}.

(** The segmentation of the whole text. *)
Definition law_docs_of (full_text : text) : list Document :=
  let matches := findall true pattern full_text in
  law_doc <$> matches.

Definition load_law (w : world) : io (list Document) :=
  documents ← call (pdf_load w LAW_PDF);
  let full_text := join NL (page_content <$> documents) in
  let law_docs := law_docs_of full_text in
  print (u "[INFO] 법령 로드 완료: " ++ str_nat (length law_docs) ++ u "조");;
  mret law_docs.

(** *** The whole script *)

Definition build_safety_rag_db (w : world) : io unit :=
  accident_docs ← load_accidents w;
  edu_docs ← load_education w;
  law_docs ← load_law w;
  accident_chunks ← call (split_documents w 1000 100 None accident_docs);
  edu_chunks ← call (split_documents w 1000 100 None edu_docs);
  law_chunks ← call (split_documents w 1000 100 None law_docs);
  let all_docs := accident_chunks ++ edu_chunks ++ law_chunks in
  print (u "[INFO] 전체 문서 청크 수: " ++ str_nat (length all_docs));;
  call (chroma_build w all_docs CHROMA_DB_DIR);;
  emit (Persist CHROMA_DB_DIR all_docs);;
  print (u "[INFO] ChromaDB 구축 완료 → " ++ CHROMA_DB_DIR).

(** ** The chunking script *)

Definition chunk_separators : list text := [[NL; NL]; [NL]; u ". "; u " "; []].

(** The dictionary built for the [i]-th chunk. *)
Definition chunk_dict (i : nat) (c : Document) : chunk :=
  MkChunk i
    (get (metadata c) (u "page") (VInt 0))
    (get (metadata c) (u "source") (VStr []))
    (page_content c)
    (u "산업안전보건기준에 관한 규칙 - 청크 " ++ str_nat (i + 1))
    (u "산업안전보건법규")
    (u "regulation").

Definition chunk_pdf (w : world) (pdf_path output_path : text) : io nat :=
  try_except
    (print (u "PDF 파일 로드 중: " ++ pdf_path);;
     documents ← call (pdf_load w pdf_path);
     print (u "PDF 페이지 수: " ++ str_nat (length documents));;
     chunked_docs ← call (split_documents w 800 100 (Some chunk_separators) documents);
     print (u "총 청크 개수: " ++ str_nat (length chunked_docs));;
     let chunks := imap chunk_dict chunked_docs in
     call (json_dump w output_path chunks);;
     emit (WriteJson output_path chunks);;
     print (u "청킹 완료: " ++ output_path);;
     print (u "총 " ++ str_nat (length chunks) ++ u "개 청크 생성");;
     mret (length chunks))
    (λ e, print (u "PDF 청킹 오류: " ++ exn_str e);; mret 0).

Definition usage : text := u "사용법: python pdf_chunking.py <pdf_path> <output_json_path>".

(** The [__main__] block; [argv] is [sys.argv], the script name first. *)
Definition chunking_main (w : world) (argv : list text) : io unit :=
  (if decide (length argv ≠ 3) then print usage;; sys_exit 1 else mret tt);;
  let pdf_path := nth 1 argv [] in
  let output_path := nth 2 argv [] in
  chunk_count ← chunk_pdf w pdf_path output_path;
  print (u "완료: " ++ str_nat chunk_count ++ u "개 청크").

(** ** Clause markers, directly

    The functions below describe the markers and the segmentation without
    the matcher; the matcher is proved to agree with them. *)

(** A clause marker: [제], one or more decimal digits, [조]. *)
Definition marker (digits : text) : text := JE :: digits ++ [JO].

Definition all_decimal (ds : text) : bool := forallb is_decimal ds.

Definition is_marker (m : text) : Prop :=
  ∃ ds, ds ≠ [] ∧ all_decimal ds = true ∧ m = marker ds.

Fixpoint skip_digits (s : text) : text :=
  match s with
  | x :: s' => if is_decimal x then skip_digits s' else s
  | [] => []
  end.

(** The text after the marker that starts [s], if one does. *)
Definition marker_end (s : text) : option text :=
  match s with
  | c :: d :: s' =>
    if decide (c = JE) then
      if is_decimal d then
        match skip_digits s' with
        | j :: rest => if decide (j = JO) then Some rest else None
        | [] => None
        end
      else None
    else None
  | _ => None
  end.

Definition marker_at (s : text) : bool :=
  match marker_end s with
  | Some _ => true
  | None => false
  end.

(** The number of places of [s] where a marker starts. *)
Fixpoint count_markers (s : text) : nat :=
  match s with
  | [] => 0
  | _ :: s' => (if marker_at s then 1 else 0) + count_markers s'
  end.

(** The text before the first marker, and the text from it on. *)
Fixpoint before_marker (s : text) : text :=
  match s with
  | [] => []
  | x :: s' => if marker_at s then [] else x :: before_marker s'
  end.

Fixpoint next_marker (s : text) : text :=
  match s with
  | [] => []
  | _ :: s' => if marker_at s then s else next_marker s'
  end.

(** One piece per marker, from the marker up to the next one. *)
Fixpoint segments (s : text) : list text :=
  match s with
  | [] => []
  | x :: s' =>
    if marker_at s then (x :: before_marker s') :: segments s' else segments s'
  end.

(** ** The record loaders, by table

    The two loaders differ in their fields only.  The tables below list,
    in the order of the f-strings, the label and the key of every field;
    [render_record] is the loader written over such a table. *)

Inductive kind : Type := Accident | Education.

Definition fields_of (k : kind) : list (text * text) :=
  match k with
  | Accident =>
    [ (u "제목: ", u "title"); (u "발생일자: ", u "date");
      (u "발생장소: ", u "location"); (u "업종: ", u "industry");
      (u "작업유형: ", u "work_type"); (u "재해형태: ", u "accident_type");
      (u "피해정도: ", u "damage"); (u "사고개요: ", u "summary");
      (u "직접원인: ", u "direct_cause"); (u "근본원인: ", u "root_cause");
      (u "위험요인 키워드: ", u "risk_keywords"); (u "예방대책: ", u "prevention") ]
  | Education =>
    [ (u "제목: ", u "title"); (u "작성일자: ", u "date");
      (u "발간번호: ", u "doc_number"); (u "자료형태: ", u "type");
      (u "키워드: ", u "keywords"); (u "내용: ", u "content");
      (u "URL: ", u "url"); (u "첨부파일: ", u "file_url") ]
  end.

Definition tag_of (k : kind) : text :=
  match k with
  | Accident => u "accident"
  | Education => u "education"
  end.

Definition doc_of (k : kind) : record → result Document :=
  match k with
  | Accident => accident_doc
  | Education => edu_doc
  end.

(** The lines of the text block: label and formatted value. *)
Definition field_lines (fields : list (text * text)) (values : list value) : list text :=
  zip_with (λ f v, f.1 ++ format_value v) fields values.

Definition render_record (k : kind) (r : record) : result Document :=
  values ← for_each (getitem r) ((fields_of k).*2);
  title ← getitem r (u "title");
  mret (MkDocument (join NL (field_lines (fields_of k) values))
          {[ u "type" := VStr (tag_of k); u "title" := title ]}).

(** [parts] occur in [s] one after the other, in this order. *)
Fixpoint in_order (parts : list text) (s : text) : Prop :=
  match parts with
  | [] => True
  | p :: ps => ∃ a b, s = a ++ p ++ b ∧ in_order ps b
  end.

(** A continuation that cannot go on at a digit. *)
Definition stops_at_digit {A : Type} (k : cont A) : Prop :=
  ∀ x s g, is_decimal x = true → k (x :: s) g = None.

(** ** Sample inputs *)

(** A file system on which no file exists and no library call succeeds. *)
Definition no_file : exn := Failure (u "No such file or directory").

Definition empty_world : world :=
  MkWorld (λ _, Raise no_file) (λ _, Raise no_file)
          (λ _ _ _ _, Raise no_file) (λ _ _, Raise no_file) (λ _ _, Raise no_file).

(** A regulation of two pages without any article, and a splitter that
    returns the pages as they are. *)
Definition two_pages : list Document :=
  [ MkDocument (u "목차") {[ u "source" := VStr (u "law.pdf"); u "page" := VInt 0 ]};
    MkDocument (u "부칙 시행일") {[ u "source" := VStr (u "law.pdf"); u "page" := VInt 1 ]} ].

Definition paged_world : world :=
  MkWorld (λ _, Raise no_file) (λ _, Ok two_pages)
          (λ _ _ _ docs, Ok docs) (λ _ _, Ok tt) (λ _ _, Ok tt).

Definition sample_accident : record :=
  {[ u "title" := VStr (u "추락 사고"); u "date" := VStr (u "2023-05-01");
     u "location" := VStr (u "서울"); u "industry" := VStr (u "건설업");
     u "work_type" := VStr (u "비계 작업"); u "accident_type" := VStr (u "떨어짐");
     u "damage" := VStr (u "사망 1명"); u "summary" := VStr (u "비계에서 추락");
     u "direct_cause" := VStr (u "안전대 미착용"); u "root_cause" := VStr (u "교육 미흡");
     u "risk_keywords" := VOther (u "['추락', '비계']");
     u "prevention" := VStr (u "안전대 착용") ]}.

Definition sample_values : list value :=
  [ VStr (u "추락 사고"); VStr (u "2023-05-01"); VStr (u "서울"); VStr (u "건설업");
    VStr (u "비계 작업"); VStr (u "떨어짐"); VStr (u "사망 1명"); VStr (u "비계에서 추락");
    VStr (u "안전대 미착용"); VStr (u "교육 미흡"); VOther (u "['추락', '비계']");
    VStr (u "안전대 착용") ].

Definition sample_argv : list text :=
  [u "pdf_chunking.py"; u "missing.pdf"; u "chunks.json"].

(** A run aborts when the process ends with a status other than 0. *)
Definition aborted (p : process) : Prop := exit_status p ≠ 0%Z.

(** A marker lies somewhere in the text. *)
Definition contains_marker (s : text) : Prop :=
  ∃ pre m post, is_marker m ∧ s = pre ++ m ++ post.

(** ** The loaders as a pair *)

Definition load_of (k : kind) : world → io (list Document) :=
  match k with
  | Accident => load_accidents
  | Education => load_education
  end.

Definition file_of (k : kind) : text :=
  match k with
  | Accident => ACCIDENT_JSON
  | Education => EDUCATION_JSON
  end.

(** The line a loader prints when it is done with [n] records. *)
Definition loaded_line (k : kind) (n : nat) : text :=
  match k with
  | Accident => u "[INFO] 사고사례 로드 완료: " ++ str_nat n ++ u "건"
  | Education => u "[INFO] 교육자료 로드 완료: " ++ str_nat n ++ u "건"
  end.

(** A record with every field of its loader. *)
Definition complete (k : kind) (r : record) : Prop :=
  Forall (λ key, is_Some (r !! key)) ((fields_of k).*2).

(** The collaborators raise ordinary exceptions only, never [SystemExit]. *)
Definition raises_exceptions (w : world) : Prop :=
  (∀ p e, json_load w p = Raise e → is_Exception e = true)
  ∧ (∀ p e, pdf_load w p = Raise e → is_Exception e = true)
  ∧ (∀ n o seps docs e, split_documents w n o seps docs = Raise e → is_Exception e = true)
  ∧ (∀ p cs e, json_dump w p cs = Raise e → is_Exception e = true)
  ∧ (∀ docs d e, chroma_build w docs d = Raise e → is_Exception e = true).

(** The title given to the [i]-th chunk object. *)
Definition chunk_title (i : nat) : text :=
  u "산업안전보건기준에 관한 규칙 - 청크 " ++ str_nat (i + 1).

(** ** The extraction test script

    [chatbot/codes/test_pdf_korean.py].  Its collaborators are the PDF
    reader, which gives for every page what [extract_text()] returns or
    raises, and [repr]. *)

Record reader_world : Type := MkReader {
  (** [open(path, "rb")], [PdfReader(file)] and its [pages] *)
  read_pages : text → result (list (result text));
  (** [repr(s)] *)
  py_repr : text → text
}.

(** ['가' <= c <= '힣'] *)
Definition is_korean (c : char) : bool := (44032 <=? c)%N && (c <=? 55203)%N.

(** The body of the loop for page [i]. *)
Definition test_page (rw : reader_world) (i : nat) (page : result text) : io unit :=
  text ← call page;
  print ([NL] ++ u "=== Page " ++ str_nat (i + 1) ++ u " ===");;
  print (u "Text length: " ++ str_nat (length text));;
  match text with
  | _ :: _ =>
    print (u "Sample text: " ++ py_repr rw (take 200 text));;
    let korean_chars := List.filter is_korean text in
    print (u "Korean characters found: " ++ str_nat (length korean_chars));;
    match korean_chars with
    | _ :: _ => print (u "Sample Korean: " ++ take 20 korean_chars)
    | [] => mret tt
    end
  | [] => print (u "No text extracted")
  end.

Fixpoint test_pages (rw : reader_world) (i : nat) (pages : list (result text)) : io unit :=
  match pages with
  | [] => mret tt
  | page :: pages' => test_page rw i page;; test_pages rw (S i) pages'
  end.

Definition test_pypdf_extraction (rw : reader_world) (pdf_path : text) : io unit :=
  print (u "Testing PDF: " ++ pdf_path);;
  try_except
    (pages ← call (read_pages rw pdf_path);
     test_pages rw 0 (take (min 3 (length pages)) pages))
    (λ e, print (u "Error: " ++ exn_str e)).



(** Sample inputs for the extra properties. *)
Definition long_reader : reader_world :=
  MkReader (λ _, Ok [Ok (u "제1조 목적"); Ok []; Ok (u "abc"); Raise no_file; Ok (u "x")])
           (λ s, s).

Definition short_reader : reader_world :=
  MkReader (λ _, Ok [Ok (u "제1조 목적"); Ok []; Ok (u "abc")]) (λ s, s).

(** The Document of [sample_accident]. *)
Definition sample_accident_doc : Document :=
  MkDocument (join NL (field_lines (fields_of Accident) sample_values))
    {[ u "type" := VStr (u "accident"); u "title" := VStr (u "추락 사고") ]}.

(** A regulation of two pages with three articles. *)
Definition law_pages : list Document :=
  [ MkDocument (u "서문 제1조 목적") ∅; MkDocument (u "제2조(정의) 용어 제3조 끝") ∅ ].

(** One accident case, no education material, the regulation above, a
    splitter that returns the Documents as they are and a store that
    accepts them. *)
Definition full_world : world :=
  MkWorld (λ p, if decide (p = ACCIDENT_JSON) then Ok [sample_accident] else Ok [])
          (λ _, Ok law_pages) (λ _ _ _ docs, Ok docs) (λ _ _, Ok tt) (λ _ _, Ok tt).

(** An accident file whose second record lacks its [damage]. *)
Definition broken_world : world :=
  MkWorld (λ _, Ok [sample_accident; delete (u "damage") sample_accident])
          (λ _, Ok law_pages) (λ _ _ _ docs, Ok docs) (λ _ _, Ok tt) (λ _ _, Ok tt).

(** * Properties *)

#[global] Arguments is_decimal : simpl never.
#[global] Arguments is_space : simpl never.
#[global] Arguments JE : simpl never.
#[global] Arguments JO : simpl never.
#[global] Arguments NL : simpl never.

(** ** Characters *)

Lemma JE_not_decimal : is_decimal JE = false.
Proof. reflexivity. Qed.

Lemma JO_not_decimal : is_decimal JO = false.
Proof. reflexivity. Qed.

Lemma NL_not_decimal : is_decimal NL = false.
Proof. reflexivity. Qed.

Lemma decimal_not_JE c : is_decimal c = true → c ≠ JE.
Proof. intros H ->. by rewrite JE_not_decimal in H. Qed.

Lemma decimal_not_JO c : is_decimal c = true → c ≠ JO.
Proof. intros H ->. by rewrite JO_not_decimal in H. Qed.

Lemma decimal_not_NL c : is_decimal c = true → c ≠ NL.
Proof. intros H ->. by rewrite NL_not_decimal in H. Qed.

Lemma JE_not_space : is_space JE = false.
Proof. reflexivity. Qed.

Lemma JO_not_space : is_space JO = false.
Proof. reflexivity. Qed.

(** Tests on the marker characters that a goal may still contain. *)
Ltac chars :=
  repeat first
    [ rewrite JE_not_decimal | rewrite JO_not_decimal | rewrite NL_not_decimal
    | rewrite JE_not_space | rewrite JO_not_space
    | rewrite decide_True by done | rewrite decide_False by done ].

(** ** Markers *)

Lemma skip_digits_app ds s :
  all_decimal ds = true → skip_digits (ds ++ s) = skip_digits s.
Proof.
  induction ds as [|d ds IH]; simpl; [done |].
  intros [Hd Hds]%andb_true_iff. rewrite Hd. auto.
Qed.

Lemma skip_digits_stop c s : is_decimal c = false → skip_digits (c :: s) = c :: s.
Proof. simpl. by intros ->. Qed.

(** What [skip_digits] removes is a run of digits, and it stops before a
    character that is not one. *)
Lemma skip_digits_split s :
  ∃ ds, all_decimal ds = true ∧ s = ds ++ skip_digits s
        ∧ match skip_digits s with c :: _ => is_decimal c = false | [] => True end.
Proof.
  induction s as [|x s (ds & Hds & Hs & Hc)]; simpl.
  - by exists [].
  - destruct (is_decimal x) eqn:Hx.
    + exists (x :: ds). simpl. rewrite Hx, Hds. split; [done |]. split; [by f_equal | done].
    + exists []. simpl. by rewrite Hx.
Qed.

Lemma marker_end_marker ds rest :
  ds ≠ [] → all_decimal ds = true → marker_end (marker ds ++ rest) = Some rest.
Proof.
  intros Hne Hds. destruct ds as [|d ds]; [done |].
  simpl in Hds. apply andb_true_iff in Hds as [Hd Hds].
  unfold marker, marker_end. simpl. chars. rewrite Hd.
  rewrite <- app_assoc. rewrite skip_digits_app by done. simpl. by chars.
Qed.

Lemma marker_end_inv s rest :
  marker_end s = Some rest →
  ∃ ds, ds ≠ [] ∧ all_decimal ds = true ∧ s = marker ds ++ rest.
Proof.
  unfold marker_end. destruct s as [|c [|d s]]; try done.
  destruct (decide (c = JE)) as [-> |]; [| done].
  destruct (is_decimal d) eqn:Hd; [| done].
  destruct (skip_digits_split s) as (ds & Hds & Hs & _).
  destruct (skip_digits s) as [|j r]; [done |].
  destruct (decide (j = JO)) as [-> |]; [| done].
  intros [= ->]. exists (d :: ds). split; [done |]. split.
  - simpl. by rewrite Hd, Hds.
  - unfold marker. simpl. rewrite Hs at 1. by rewrite <- app_assoc.
Qed.

(** [marker_at] says that the text starts with a marker. *)
Lemma marker_at_spec s :
  marker_at s = true ↔ ∃ m rest, is_marker m ∧ s = m ++ rest.
Proof.
  unfold marker_at. split.
  - destruct (marker_end s) as [rest|] eqn:E; [| done]. intros _.
    apply marker_end_inv in E as (ds & ? & ? & ->).
    exists (marker ds), rest. split; [by exists ds | done].
  - intros (m & rest & (ds & Hne & Hds & ->) & ->).
    by rewrite marker_end_marker.
Qed.

Lemma marker_at_head c s : marker_at (c :: s) = true → c = JE.
Proof.
  unfold marker_at, marker_end. destruct s as [|d s]; [done |].
  by destruct (decide (c = JE)).
Qed.

Lemma marker_at_not_JE c s : c ≠ JE → marker_at (c :: s) = false.
Proof.
  intros Hc. destruct (marker_at (c :: s)) eqn:E; [| done].
  by apply marker_at_head in E.
Qed.

(** A marker that starts in [x] ends in [x] when [x] is followed by [제]:
    whether a marker starts there does not depend on what follows. *)
Lemma marker_at_before_JE c x s :
  marker_at ((c :: x) ++ JE :: s) = marker_at (c :: x).
Proof.
  unfold marker_at, marker_end. simpl.
  destruct x as [|d x]; simpl.
  - chars. by destruct (decide (c = JE)).
  - destruct (decide (c = JE)); [| done]. destruct (is_decimal d); [| done].
    assert (skip_digits (x ++ JE :: s) = skip_digits x ++ JE :: s) as ->.
    { clear. induction x as [|y x IH]; simpl.
      - by chars.
      - by destruct (is_decimal y). }
    destruct (skip_digits x) as [|j r]; simpl; [| by destruct (decide (j = JO))].
    by chars.
Qed.

Lemma marker_end_length s rest : marker_end s = Some rest → length rest + 3 ≤ length s.
Proof.
  intros (ds & Hne & _ & ->)%marker_end_inv. destruct ds; [done |].
  unfold marker. simpl. rewrite !length_app. simpl. lia.
Qed.

Lemma before_next s : s = before_marker s ++ next_marker s.
Proof.
  induction s as [|x s IH]; [done |]. simpl.
  destruct (marker_at (x :: s)); [done |]. simpl. by f_equal.
Qed.

Lemma next_marker_length s : length (next_marker s) ≤ length s.
Proof.
  induction s as [|x s IH]; [done |]. simpl.
  destruct (marker_at (x :: s)); simpl; lia.
Qed.

Lemma next_marker_cases s : next_marker s = [] ∨ marker_at (next_marker s) = true.
Proof.
  induction s as [|x s IH]; [by left |]. simpl.
  destruct (marker_at (x :: s)) eqn:E; [by right | done].
Qed.

Lemma segments_next s : segments (next_marker s) = segments s.
Proof.
  induction s as [|x s IH]; [done |]. simpl.
  destruct (marker_at (x :: s)) eqn:E; [| done]. simpl. by rewrite E.
Qed.

Lemma segments_length s : length (segments s) = count_markers s.
Proof.
  induction s as [|x s IH]; [done |]. simpl.
  destruct (marker_at (x :: s)); simpl; by rewrite IH.
Qed.

(** No marker starts at a character other than [제]. *)
Lemma skip_no_JE x s :
  Forall (λ c, c ≠ JE) x →
  before_marker (x ++ s) = x ++ before_marker s
  ∧ next_marker (x ++ s) = next_marker s
  ∧ segments (x ++ s) = segments s
  ∧ count_markers (x ++ s) = count_markers s.
Proof.
  induction 1 as [|c x Hc _ (IH1 & IH2 & IH3 & IH4)]; [done |]. simpl.
  rewrite marker_at_not_JE by done. by rewrite IH1, IH2, IH3, IH4.
Qed.

Lemma marker_tail_no_JE ds :
  all_decimal ds = true → Forall (λ c, c ≠ JE) (ds ++ [JO]).
Proof.
  intros Hds. apply Forall_app. split.
  - apply Forall_forall. intros c Hc. apply decimal_not_JE.
    unfold all_decimal in Hds. rewrite forallb_forall in Hds.
    apply Hds. by apply list_elem_of_In.
  - by repeat constructor.
Qed.

Lemma marker_app ds rest : marker ds ++ rest = JE :: (ds ++ [JO]) ++ rest.
Proof. unfold marker. simpl. done. Qed.

Lemma marker_at_marker ds rest :
  ds ≠ [] → all_decimal ds = true → marker_at (marker ds ++ rest) = true.
Proof. intros. unfold marker_at. by rewrite marker_end_marker. Qed.

Lemma segments_marker ds rest :
  ds ≠ [] → all_decimal ds = true →
  segments (marker ds ++ rest) = (marker ds ++ before_marker rest) :: segments rest.
Proof.
  intros Hne Hds. pose proof (marker_at_marker ds rest Hne Hds) as Hm.
  rewrite marker_app in *. simpl. rewrite Hm.
  destruct (skip_no_JE (ds ++ [JO]) rest) as (-> & _ & -> & _);
    [by apply marker_tail_no_JE | done].
Qed.

Lemma count_markers_marker ds rest :
  ds ≠ [] → all_decimal ds = true →
  count_markers (marker ds ++ rest) = S (count_markers rest).
Proof.
  intros Hne Hds. pose proof (marker_at_marker ds rest Hne Hds) as Hm.
  rewrite marker_app in *. simpl. rewrite Hm.
  destruct (skip_no_JE (ds ++ [JO]) rest) as (_ & _ & _ & ->);
    [by apply marker_tail_no_JE | done].
Qed.

Lemma count_markers_app_JE x s :
  count_markers (x ++ JE :: s) = count_markers x + count_markers (JE :: s).
Proof.
  induction x as [|c x IH]; [done |].
  change (count_markers ((c :: x) ++ JE :: s))
    with ((if marker_at ((c :: x) ++ JE :: s) then 1 else 0) + count_markers (x ++ JE :: s)).
  rewrite marker_at_before_JE, IH. simpl. lia.
Qed.

Lemma count_markers_0_at c x : count_markers (c :: x) = 0 → marker_at (c :: x) = false.
Proof. simpl. destruct (marker_at (c :: x)); [done | done]. Qed.

Lemma no_marker_before x s :
  count_markers x = 0 → marker_at (JE :: s) = true →
  before_marker (x ++ JE :: s) = x ∧ segments (x ++ JE :: s) = segments (JE :: s).
Proof.
  intros Hx Hs. induction x as [|c x IH].
  - simpl. by rewrite Hs.
  - pose proof (count_markers_0_at _ _ Hx) as Hc.
    change (before_marker ((c :: x) ++ JE :: s))
      with (if marker_at ((c :: x) ++ JE :: s) then [] else c :: before_marker (x ++ JE :: s)).
    change (segments ((c :: x) ++ JE :: s))
      with (if marker_at ((c :: x) ++ JE :: s)
            then (c :: before_marker (x ++ JE :: s)) :: segments (x ++ JE :: s)
            else segments (x ++ JE :: s)).
    rewrite marker_at_before_JE, Hc.
    simpl in Hx. rewrite Hc in Hx. simpl in Hx.
    destruct (IH Hx) as [-> ->]. done.
Qed.

Lemma no_marker_all x : count_markers x = 0 → before_marker x = x ∧ segments x = [].
Proof.
  induction x as [|c x IH]; [done |]. intros Hx.
  pose proof (count_markers_0_at _ _ Hx) as Hc. simpl in *. rewrite Hc in *.
  destruct (IH Hx) as [-> ->]. done.
Qed.

(** [count_markers] counts the occurrences: it is zero exactly when no
    marker lies anywhere in the text. *)
Lemma count_markers_0_spec s : count_markers s = 0 ↔ ¬ contains_marker s.
Proof.
  unfold contains_marker. split.
  - intros H (pre & m & post & (ds & Hne & Hds & ->) & ->).
    rewrite marker_app, count_markers_app_JE in H.
    rewrite <- marker_app, count_markers_marker in H by done. lia.
  - intros H. induction s as [|c s IH]; [done |]. simpl.
    destruct (marker_at (c :: s)) eqn:E.
    + exfalso. apply H. apply marker_at_spec in E as (m & rest & Hm & ->).
      by exists [], m, rest.
    + apply IH. intros (pre & m & post & Hm & ->). apply H.
      by exists (c :: pre), m, post.
Qed.

(** ** The matcher on the two patterns *)

Section MatcherFacts.
Context (dotall : bool) {A : Type}.
Implicit Types (k : cont A) (s : text) (g : option text).

Lemma rmatch_Cat r1 r2 s g k :
  rmatch dotall (Cat r1 r2) A s g k
  = rmatch dotall r1 A s g (λ s1 g1, rmatch dotall r2 A s1 g1 k).
Proof. done. Qed.

Lemma rmatch_Chr c s g k :
  rmatch dotall (Chr c) A s g k
  = match s with
    | x :: s' => if decide (x = c) then k s' g else None
    | [] => None
    end.
Proof. done. Qed.

Lemma rmatch_Group r s g k :
  rmatch dotall (Group r) A s g k
  = rmatch dotall r A s g (λ s1 _, k s1 (Some (take (length s - length s1) s))).
Proof. done. Qed.

Lemma stops_at_digit_JO k :
  stops_at_digit (λ s g, rmatch dotall (Chr JO) A s g k).
Proof.
  intros x s g Hx. rewrite rmatch_Chr.
  rewrite decide_False; [done |]. by apply decimal_not_JO.
Qed.

(** Greedy digits followed by something that is not a digit: the whole
    run is taken, and giving back digits never helps. *)
Lemma greedy_digits k n s g :
  stops_at_digit k → length s ≤ n →
  greedy_more (rmatch dotall Digit A) k n s g = k (skip_digits s) g.
Proof.
  intros Hk. revert s. induction n as [|n IH]; intros s Hn.
  - destruct s; [done | simpl in Hn; lia].
  - destruct s as [|x s]; [done |]. simpl in *.
    destruct (is_decimal x) eqn:Hx; [| done].
    assert ((length s <? S (length s)) = true) as -> by (apply Nat.ltb_lt; lia).
    rewrite IH by lia.
    destruct (k (skip_digits s) g) eqn:E; [done |]. by rewrite Hk.
Qed.

Lemma rmatch_plus_digit k s g :
  stops_at_digit k →
  rmatch dotall (Plus Digit) A s g k
  = match s with
    | x :: s' => if is_decimal x then k (skip_digits s') g else None
    | [] => None
    end.
Proof.
  intros Hk. destruct s as [|x s]; [done |]. simpl.
  destruct (is_decimal x); [| done]. by apply greedy_digits.
Qed.

(** [제\d+조] followed by [r]. *)
Lemma rmatch_marker_then r s g k :
  rmatch dotall (Chr JE ⊳ Plus Digit ⊳ Chr JO ⊳ r) A s g k
  = match marker_end s with
    | Some rest => rmatch dotall r A rest g k
    | None => None
    end.
Proof.
  rewrite rmatch_Cat, rmatch_Chr. unfold marker_end.
  destruct s as [|c s]; [done |].
  destruct (decide (c = JE)) as [-> |]; [| by destruct s].
  rewrite rmatch_Cat.
  rewrite rmatch_plus_digit
    by (intros x s' g' Hx; rewrite rmatch_Cat; by apply stops_at_digit_JO).
  destruct s as [|d s]; [done |]. destruct (is_decimal d); [| done].
  rewrite rmatch_Cat, rmatch_Chr.
  destruct (skip_digits s) as [|j t]; [done |]. by destruct (decide (j = JO)).
Qed.

Lemma rmatch_marker s g k :
  rmatch dotall marker_re A s g k
  = match marker_end s with
    | Some rest => k rest g
    | None => None
    end.
Proof.
  unfold marker_re. rewrite rmatch_Cat, rmatch_Chr. unfold marker_end.
  destruct s as [|c s]; [done |].
  destruct (decide (c = JE)) as [-> |]; [| by destruct s].
  rewrite rmatch_Cat.
  rewrite rmatch_plus_digit by apply stops_at_digit_JO.
  destruct s as [|d s]; [done |]. destruct (is_decimal d); [| done].
  rewrite rmatch_Chr.
  destruct (skip_digits s) as [|j t]; [done |]. by destruct (decide (j = JO)).
Qed.
End MatcherFacts.

(** The look-ahead [(?=제\d+조|\Z)] holds at a marker and at the end. *)
Lemma rmatch_ahead {A : Type} dotall s g (k : cont A) :
  rmatch dotall (Ahead (Alt marker_re EndZ)) A s g k
  = if marker_at s || bool_decide (s = []) then k s g else None.
Proof.
  change (rmatch dotall (Ahead (Alt marker_re EndZ)) A s g k)
    with (match (match rmatch dotall marker_re (option text) s g (λ _ g1, Some g1) with
                 | Some a => Some a
                 | None => rmatch dotall EndZ (option text) s g (λ _ g1, Some g1)
                 end) with
          | Some g1 => k s g1
          | None => None
          end).
  rewrite rmatch_marker. unfold marker_at.
  destruct (marker_end s); [done |]. by destruct s.
Qed.

(** [.*?] before the look-ahead stops at the next marker or at the end. *)
Lemma lazy_dot {A : Type} (k : cont A) (F : text → A) n s g :
  (∀ t, length t ≤ length s →
        k t g = if marker_at t || bool_decide (t = []) then Some (F t) else None) →
  length s ≤ n →
  lazy_more (rmatch true Dot A) k n s g = Some (F (next_marker s)).
Proof.
  revert s. induction n as [|n IH]; intros s Hk Hn.
  - destruct s; [| simpl in Hn; lia]. simpl. by rewrite Hk.
  - destruct s as [|x s].
    + simpl. by rewrite Hk.
    + cbn [lazy_more next_marker]. rewrite Hk by done.
      destruct (marker_at (x :: s)); [done |]. simpl.
      assert ((length s <? S (length s)) = true) as -> by (apply Nat.ltb_lt; lia).
      apply IH; [| simpl in Hn; lia].
      intros t Ht. apply Hk. simpl. lia.
Qed.

(** One attempt of the clause pattern. *)
Lemma match_here_pattern s must_advance :
  match_here true pattern s must_advance
  = match marker_end s with
    | Some rest =>
      let e := next_marker rest in
      Some (MkMatch s e (Some (take (length s - length e) s)))
    | None => None
    end.
Proof.
  unfold match_here, pattern.
  rewrite rmatch_Cat, rmatch_Group, rmatch_marker_then.
  destruct (marker_end s) as [rest|] eqn:E; [| done].
  apply marker_end_length in E.
  change (rmatch true (LazyStar Dot) rematch rest None ?k)
    with (lazy_more (rmatch true Dot rematch) k (length rest) rest None).
  apply (lazy_dot _ (λ t, MkMatch s t (Some (take (length s - length t) s)))); [| done].
  intros t Ht. rewrite rmatch_ahead.
  assert ((length t =? length s) = false) as -> by (apply Nat.eqb_neq; lia).
  by rewrite andb_false_r.
Qed.

Lemma search_pattern s must_advance :
  search_from true pattern s must_advance
  = match_here true pattern (next_marker s) false.
Proof.
  revert must_advance. induction s as [|x s IH]; intros ma.
  - simpl. by rewrite !match_here_pattern.
  - cbn [search_from next_marker]. rewrite match_here_pattern. unfold marker_at.
    destruct (marker_end (x :: s)) as [rest|] eqn:E.
    + by rewrite match_here_pattern, E.
    + apply IH.
Qed.

Lemma take_before (m b e : text) :
  take (length (m ++ b ++ e) - length e) (m ++ b ++ e) = m ++ b.
Proof.
  rewrite app_assoc, length_app.
  replace (length (m ++ b) + length e - length e) with (length (m ++ b)) by lia.
  by rewrite take_app_length.
Qed.

Lemma findall_loop_pattern fuel s must_advance :
  length s < fuel → findall_loop true fuel pattern s must_advance = segments s.
Proof.
  revert s must_advance. induction fuel as [|fuel IH]; intros s ma Hs; [lia |].
  cbn [findall_loop]. rewrite search_pattern, match_here_pattern.
  rewrite <- (segments_next s).
  pose proof (next_marker_length s) as Hl.
  destruct (marker_end (next_marker s)) as [rest|] eqn:E.
  - pose proof (marker_end_length _ _ E) as Hr.
    apply marker_end_inv in E as (ds & Hne & Hds & Ht).
    pose proof (next_marker_length rest) as He.
    cbn [m_end m_start findall_item m_group1].
    rewrite IH by lia. rewrite Ht at 3. rewrite segments_marker by done.
    rewrite segments_next. f_equal.
    rewrite Ht. set (e := next_marker rest). set (b := before_marker rest).
    replace rest with (b ++ e) by (symmetry; apply before_next).
    apply take_before.
  - destruct (next_marker_cases s) as [-> | Hm]; [done |].
    unfold marker_at in Hm. by rewrite E in Hm.
Qed.

(** [re.findall(pattern, text, re.DOTALL)] cuts the text at its markers. *)
Lemma findall_pattern s : findall true pattern s = segments s.
Proof. apply findall_loop_pattern. lia. Qed.

(** ** String methods *)

Lemma lstrip_app x c y :
  is_space c = false → lstrip (x ++ c :: y) = lstrip x ++ c :: y.
Proof.
  intros Hc. induction x as [|a x IH]; simpl.
  - by rewrite Hc.
  - by destruct (is_space a).
Qed.

Lemma rstrip_app a c r :
  is_space c = false → rstrip (a ++ c :: r) = a ++ c :: rstrip r.
Proof.
  intros Hc. unfold rstrip.
  rewrite rev_app_distr. simpl. rewrite <- app_assoc. simpl.
  rewrite lstrip_app by done. rewrite rev_app_distr. simpl.
  rewrite rev_involutive. by rewrite <- app_assoc.
Qed.

(** What [rstrip] removes is white space at the end. *)
Lemma rstrip_spec s : ∃ ws, forallb is_space ws = true ∧ s = rstrip s ++ ws.
Proof.
  unfold rstrip. pose proof (rev_involutive s) as Hs. revert Hs.
  generalize (rev s). intros t <-.
  induction t as [|c t (ws & Hws & IH)]; simpl.
  - by exists [].
  - destruct (is_space c) eqn:Hc.
    + exists (ws ++ [c]). split.
      * rewrite forallb_app. simpl. by rewrite Hws, Hc.
      * rewrite IH at 1. by rewrite app_assoc.
    + exists []. by rewrite app_nil_r.
Qed.

Lemma strip_marker ds b : strip (marker ds ++ b) = marker ds ++ rstrip b.
Proof.
  assert (∀ t, marker ds ++ t = (JE :: ds) ++ JO :: t) as Hm
    by (intros t; unfold marker; simpl; by rewrite <- app_assoc).
  rewrite !Hm. unfold strip.
  replace (lstrip ((JE :: ds) ++ JO :: b)) with ((JE :: ds) ++ JO :: b)
    by (simpl; by chars).
  by apply rstrip_app.
Qed.

Lemma split_not_nil sep s : split sep s ≠ [].
Proof.
  destruct s as [|c s]; simpl; [done |].
  destruct (decide (c = sep)); [done |]. by destruct (split sep s).
Qed.

Lemma first_line_app x s :
  Forall (λ c, c ≠ NL) x →
  hd [] (split NL (x ++ s)) = x ++ hd [] (split NL s).
Proof.
  induction 1 as [|c x Hc _ IH]; [done |]. simpl.
  rewrite decide_False by done.
  pose proof (split_not_nil NL (x ++ s)) as Hne.
  destruct (split NL (x ++ s)) as [|p ps]; [done |]. simpl in *. by rewrite IH.
Qed.

Lemma marker_no_NL ds : all_decimal ds = true → Forall (λ c, c ≠ NL) (marker ds).
Proof.
  intros Hds. unfold marker. constructor; [done |]. apply Forall_app. split.
  - apply Forall_forall. intros c Hc. apply decimal_not_NL.
    unfold all_decimal in Hds. rewrite forallb_forall in Hds.
    apply Hds. by apply list_elem_of_In.
  - by repeat constructor.
Qed.

(** The header line of a segment keeps the marker. *)
Lemma header_line_marker ds b :
  all_decimal ds = true →
  strip (hd [] (split NL (marker ds ++ b)))
  = marker ds ++ rstrip (hd [] (split NL b)).
Proof.
  intros Hds. rewrite first_line_app by by apply marker_no_NL.
  apply strip_marker.
Qed.

Lemma search_from_here dotall r s must_advance m :
  match_here dotall r s must_advance = Some m →
  search_from dotall r s must_advance = Some m.
Proof. intros H. destruct s; simpl; by rewrite H. Qed.

(** [re.search(r"제(\d+)조", ...)] on a text that starts with a marker. *)
Lemma search_number_marker ds r :
  ds ≠ [] → all_decimal ds = true →
  re_search false number_re (marker ds ++ r)
  = Some (MkMatch (marker ds ++ r) r (Some ds)).
Proof.
  intros Hne Hds. unfold re_search.
  assert (match_here false number_re (marker ds ++ r) false
          = Some (MkMatch (marker ds ++ r) r (Some ds))) as H.
  { unfold match_here, number_re.
    rewrite rmatch_Cat, rmatch_Chr. rewrite marker_app. chars.
    rewrite rmatch_Cat, rmatch_Group.
    rewrite rmatch_plus_digit
      by (intros x s' g' Hx; by apply (stops_at_digit_JO false)).
    destruct ds as [|d ds]; [done |].
    simpl in Hds. apply andb_true_iff in Hds as [Hd Hds].
    rewrite <- !app_assoc. simpl. rewrite Hd.
    rewrite skip_digits_app by done.
    rewrite skip_digits_stop by apply JO_not_decimal. chars.
    simpl. do 4 f_equal.
    replace (length (ds ++ JO :: r) - length r) with (S (length ds))
      by (rewrite length_app; simpl; lia).
    simpl. f_equal. by rewrite take_app_length. }
  by apply search_from_here.
Qed.

(** ** Law documents *)

(** Every piece of the segmentation starts with a marker. *)
Lemma segments_start s :
  Forall (λ m, ∃ ds b, ds ≠ [] ∧ all_decimal ds = true ∧ m = marker ds ++ b)
         (segments s).
Proof.
  induction s as [|x s IH]; simpl; [done |].
  destruct (marker_at (x :: s)) eqn:E; [| done]. constructor; [| done].
  unfold marker_at in E. destruct (marker_end (x :: s)) as [rest|] eqn:E'; [| done].
  apply marker_end_inv in E' as (ds & Hne & Hds & Hs).
  rewrite marker_app in Hs. injection Hs as Hx Hs. subst x s.
  destruct (skip_no_JE (ds ++ [JO]) rest) as (-> & _); [by apply marker_tail_no_JE |].
  by exists ds, (before_marker rest).
Qed.

(** The document made from a segment. *)
Lemma law_doc_segment ds b :
  ds ≠ [] → all_decimal ds = true →
  law_doc (marker ds ++ b)
  = MkDocument (marker ds ++ rstrip b)
      {[ u "type" := VStr (u "law");
         u "law_number" := VStr ds;
         u "title" := VStr (marker ds ++ rstrip (hd [] (split NL b)));
         u "source" := VStr (u "산업안전보건기준") ]}.
Proof.
  intros Hne Hds. unfold law_doc.
  rewrite header_line_marker, strip_marker by done.
  by rewrite search_number_marker.
Qed.

Lemma law_doc_number ds b :
  ds ≠ [] → all_decimal ds = true →
  metadata (law_doc (marker ds ++ b)) !! u "law_number" = Some (VStr ds).
Proof.
  intros Hne Hds. rewrite law_doc_segment by done. simpl.
  rewrite lookup_insert_ne by (by vm_compute).
  by rewrite lookup_insert_eq.
Qed.

Lemma count_markers_app_marker x ds rest :
  ds ≠ [] → all_decimal ds = true →
  count_markers (x ++ marker ds ++ rest) = count_markers x + S (count_markers rest).
Proof.
  intros Hne Hds. rewrite <- (count_markers_marker ds rest) by done.
  rewrite marker_app. apply count_markers_app_JE.
Qed.

Lemma no_marker_before_marker x ds rest :
  ds ≠ [] → all_decimal ds = true → count_markers x = 0 →
  before_marker (x ++ marker ds ++ rest) = x
  ∧ segments (x ++ marker ds ++ rest) = segments (marker ds ++ rest).
Proof.
  intros Hne Hds Hx. pose proof (marker_at_marker ds rest Hne Hds) as Hm.
  rewrite marker_app in *. by apply no_marker_before.
Qed.

Lemma article_numbers n1 n2 n3 :
  [n1; n2; n3] ≡ₚ [u "1"; u "2"; u "3"] →
  Forall (λ n, n ≠ [] ∧ all_decimal n = true) [n1; n2; n3].
Proof.
  intros Hp. rewrite Hp. by repeat constructor.
Qed.

(** One Document per marker of the text. *)
Lemma law_docs_of_length text : length (law_docs_of text) = count_markers text.
Proof.
  unfold law_docs_of. by rewrite length_fmap, findall_pattern, segments_length.
Qed.

(** C1 (as amended).  A text with exactly three clause markers, 제1조, 제2조
    and 제3조 in any order, is cut by [re.findall] into exactly three matches,
    each from its marker up to the next marker or the end of the text, and the
    text before the first marker is dropped.  The three Documents carry these
    matches with the white space at their end stripped, and the digits of
    their marker as [law_number]. *)
Theorem law_segmentation_three text pre n1 b1 n2 b2 n3 b3 :
  [n1; n2; n3] ≡ₚ [u "1"; u "2"; u "3"] →
  text = pre ++ marker n1 ++ b1 ++ marker n2 ++ b2 ++ marker n3 ++ b3 →
  count_markers text = 3 →
  findall true pattern text = [marker n1 ++ b1; marker n2 ++ b2; marker n3 ++ b3]
  ∧ page_content <$> law_docs_of text
    = [marker n1 ++ rstrip b1; marker n2 ++ rstrip b2; marker n3 ++ rstrip b3]
  ∧ (λ d, metadata d !! u "law_number") <$> law_docs_of text
    = [Some (VStr n1); Some (VStr n2); Some (VStr n3)].
Proof.
  intros Hp -> Hc.
  apply article_numbers in Hp.
  apply Forall_cons in Hp as [[Hn1 Hd1] Hp].
  apply Forall_cons in Hp as [[Hn2 Hd2] Hp].
  apply Forall_cons in Hp as [[Hn3 Hd3] _].
  rewrite !count_markers_app_marker in Hc by done.
  assert (findall true pattern
            (pre ++ marker n1 ++ b1 ++ marker n2 ++ b2 ++ marker n3 ++ b3)
          = [marker n1 ++ b1; marker n2 ++ b2; marker n3 ++ b3]) as Hf.
  { rewrite findall_pattern.
    destruct (no_marker_before_marker pre n1 (b1 ++ marker n2 ++ b2 ++ marker n3 ++ b3))
      as [_ ->]; [done | done | lia |].
    rewrite segments_marker by done.
    destruct (no_marker_before_marker b1 n2 (b2 ++ marker n3 ++ b3))
      as [-> ->]; [done | done | lia |].
    rewrite segments_marker by done.
    destruct (no_marker_before_marker b2 n3 b3) as [-> ->]; [done | done | lia |].
    rewrite segments_marker by done.
    destruct (no_marker_all b3) as [-> ->]; [lia | done]. }
  split; [done |]. unfold law_docs_of. rewrite Hf.
  rewrite !fmap_cons, !fmap_nil.
  rewrite !law_doc_number by done.
  by rewrite !law_doc_segment.
Qed.

Lemma law_segmentation_three_witness :
  let text := u "서문 제1조 목적 " ++ [NL] ++ u "제2조(정의) 용어" ++ [NL; NL] ++ u "제3조 끝" in
  page_content <$> law_docs_of text
  = [u "제1조 목적"; u "제2조(정의) 용어"; u "제3조 끝"].
Proof.
  refine (proj1 (proj2
    (law_segmentation_three _ (u "서문 ")
       (u "1") (u " 목적 " ++ [NL]) (u "2") (u "(정의) 용어" ++ [NL; NL]) (u "3") (u " 끝")
       _ _ _))).
  - reflexivity.
  - reflexivity.
  - vm_compute. reflexivity.
Defined.

(** The Documents are not the matches themselves: white space before the
    next marker is part of the match and not of the Document. *)
Lemma law_segmentation_not_verbatim :
  let b1 := u " 목적" ++ [NL] in
  let b2 := u " 정의" ++ [NL] in
  let b3 := u " 끝" in
  let text := marker (u "1") ++ b1 ++ marker (u "2") ++ b2 ++ marker (u "3") ++ b3 in
  count_markers text = 3
  ∧ page_content <$> law_docs_of text
    ≠ [marker (u "1") ++ b1; marker (u "2") ++ b2; marker (u "3") ++ b3].
Proof.
  split; [by vm_compute |]. by vm_compute.
Qed.

(** C10.  On every match of the clause pattern the search for [제(\d+)조] in
    the stripped first line succeeds and its group is a non-empty run of
    digits; so every law Document has such a run as [law_number], and the
    empty-string alternative is never taken. *)
Theorem law_number_always_found text :
  Forall (λ m, ∃ found ds,
            re_search false number_re (strip (hd [] (split NL m))) = Some found
            ∧ m_group1 found = Some ds ∧ ds ≠ [] ∧ all_decimal ds = true)
         (findall true pattern text)
  ∧ Forall (λ d, ∃ ds, metadata d !! u "law_number" = Some (VStr ds)
                       ∧ ds ≠ [] ∧ all_decimal ds = true)
           (law_docs_of text).
Proof.
  unfold law_docs_of. rewrite findall_pattern.
  pose proof (segments_start text) as H. split.
  - eapply Forall_impl; [exact H |]. intros m (ds & b & Hne & Hds & ->).
    rewrite header_line_marker, search_number_marker by done.
    by eexists _, ds.
  - apply Forall_fmap. eapply Forall_impl; [exact H |].
    intros m (ds & b & Hne & Hds & ->). exists ds.
    by rewrite law_doc_number.
Qed.

(** ** Running the scripts *)

Lemma bind_call_Ok {A B : Type} (a : A) (f : A → io B) : call (Ok a) ≫= f = f a.
Proof. unfold mbind, io_bind, call. simpl. by destruct (f a). Qed.

Lemma bind_call_Raise {A B : Type} (e : exn) (f : A → io B) :
  call (Raise e) ≫= f = IO [] (Raise e).
Proof. done. Qed.

Lemma bind_print {B : Type} (line : text) (f : unit → io B) :
  print line ≫= f = IO (Stdout line :: trace (f tt)) (outcome (f tt)).
Proof. done. Qed.

Lemma bind_emit {B : Type} (e : event) (f : unit → io B) :
  emit e ≫= f = IO (e :: trace (f tt)) (outcome (f tt)).
Proof. done. Qed.

(** C9.  When the text of the regulation contains no clause marker,
    [re.findall] returns the empty list and the law section of the builder
    completes normally with no Document: it raises nothing and prints only
    its usual count line, with count 0. *)
Theorem no_marker_no_documents w documents :
  pdf_load w LAW_PDF = Ok documents →
  ¬ contains_marker (join NL (page_content <$> documents)) →
  findall true pattern (join NL (page_content <$> documents)) = []
  ∧ load_law w = IO [Stdout (u "[INFO] 법령 로드 완료: 0조")] (Ok []).
Proof.
  intros Hload Hno. apply count_markers_0_spec in Hno.
  assert (findall true pattern (join NL (page_content <$> documents)) = []) as Hf.
  { rewrite findall_pattern. by destruct (no_marker_all _ Hno). }
  split; [done |]. unfold load_law, law_docs_of.
  rewrite Hload, bind_call_Ok. cbv zeta. rewrite Hf. reflexivity.
Qed.

Lemma no_marker_no_documents_witness :
  load_law paged_world = IO [Stdout (u "[INFO] 법령 로드 완료: 0조")] (Ok []).
Proof.
  refine (proj2 (no_marker_no_documents paged_world two_pages _ _)).
  - reflexivity.
  - apply count_markers_0_spec. vm_compute. reflexivity.
Defined.

(** ** The record loaders *)

(** Both loops are the table-driven loader at their table. *)
Lemma doc_of_table (k : kind) (r : record) : doc_of k r = render_record k r.
Proof.
  destruct k;
    unfold doc_of, accident_doc, edu_doc, render_record, getitem, field_lines;
    cbn [fields_of fmap list_fmap snd fst for_each mbind result_bind mret result_ret];
    repeat (match goal with
            | |- context [r !! ?k] => destruct (r !! k) eqn:?; [| done]
            end;
            cbn [mbind result_bind mret result_ret]).
  all: cbn [zip_with join fst snd].
  all: do 2 f_equal; rewrite <- !app_assoc; reflexivity.
Qed.

Lemma getitem_Some (r : record) k v : r !! k = Some v → getitem r k = Ok v.
Proof. unfold getitem. by intros ->. Qed.

Lemma getitem_None (r : record) k : r !! k = None → getitem r k = Raise (KeyError k).
Proof. unfold getitem. by intros ->. Qed.

Lemma for_each_getitem_Ok (r : record) keys values :
  Forall2 (λ k v, r !! k = Some v) keys values →
  for_each (getitem r) keys = Ok values.
Proof.
  induction 1 as [|k v keys values Hk _ IH]; [done |].
  cbn [for_each]. rewrite (getitem_Some _ _ _ Hk).
  cbn [mbind result_bind]. by rewrite IH.
Qed.

Lemma for_each_getitem_missing (r : record) present missing rest :
  Forall (λ k, is_Some (r !! k)) present → r !! missing = None →
  for_each (getitem r) (present ++ missing :: rest) = Raise (KeyError missing).
Proof.
  intros Hp Hm. induction Hp as [|k present [v Hk] _ IH]; cbn [app for_each].
  - by rewrite (getitem_None _ _ Hm).
  - rewrite (getitem_Some _ _ _ Hk). cbn [mbind result_bind]. by rewrite IH.
Qed.

Lemma for_each_app_Raise {A B : Type} (f : A → result B) before a after docs e :
  for_each f before = Ok docs → f a = Raise e →
  for_each f (before ++ a :: after) = Raise e.
Proof.
  revert docs. induction before as [|x before IH]; intros docs; simpl.
  - by intros _ ->.
  - destruct (f x) as [b|]; simpl; [| done].
    destruct (for_each f before) as [bs|] eqn:E; simpl; [| done].
    intros _ Ha. by rewrite (IH bs).
Qed.

Lemma for_each_length {A B : Type} (f : A → result B) l docs :
  for_each f l = Ok docs → length docs = length l.
Proof.
  revert docs. induction l as [|x l IH]; intros docs; simpl.
  - by intros [= <-].
  - destruct (f x) as [b|]; simpl; [| done].
    destruct (for_each f l) as [bs|]; simpl; [| done].
    intros [= <-]. simpl. by rewrite (IH bs).
Qed.

Lemma in_order_prepend ps a s : in_order ps s → in_order ps (a ++ s).
Proof.
  destruct ps as [|p ps]; simpl; [done |]. intros (x & y & -> & H).
  exists (a ++ x), y. by rewrite <- app_assoc.
Qed.

(** The formatted values occur in the text block in the order of the
    fields. *)
Lemma in_order_lines fields values :
  length fields = length values →
  in_order (format_value <$> values) (join NL (field_lines fields values)).
Proof.
  revert values. induction fields as [|f fields IH]; intros [|v values] Hl;
    try done.
  injection Hl as Hl. specialize (IH values Hl).
  change (field_lines (f :: fields) (v :: values))
    with ((f.1 ++ format_value v) :: field_lines fields values).
  cbn [fmap list_fmap in_order].
  exists f.1. destruct (field_lines fields values) as [|l ls] eqn:E.
  - exists []. split; [by rewrite app_nil_r |].
    destruct fields, values; try done.
  - exists (NL :: join NL (l :: ls)). split.
    + cbn [join]. by rewrite <- app_assoc.
    + by apply (in_order_prepend _ [NL]).
Qed.

(** C5.  A record that has every required field gives one Document: its
    text is the lines [label ++ value], one per field in the fixed order of
    the loader, joined by line feeds, so that the formatted values occur
    in it in that order; its metadata is the category tag and the title of
    the record. *)
Theorem record_rendering (k : kind) (r : record) (values : list value) :
  Forall2 (λ f v, r !! f.2 = Some v) (fields_of k) values →
  ∃ d title,
    doc_of k r = Ok d
    ∧ page_content d = join NL (field_lines (fields_of k) values)
    ∧ in_order (format_value <$> values) (page_content d)
    ∧ r !! u "title" = Some title
    ∧ metadata d = {[ u "type" := VStr (tag_of k); u "title" := title ]}.
Proof.
  intros H.
  assert (∃ title, r !! u "title" = Some title) as [title Ht].
  { destruct k; apply Forall2_cons_inv_l in H as (v & ? & Hv & _); by exists v. }
  exists (MkDocument (join NL (field_lines (fields_of k) values))
            {[ u "type" := VStr (tag_of k); u "title" := title ]}), title.
  split; [| split; [done | split; [| done]]].
  - rewrite doc_of_table. unfold render_record.
    rewrite (for_each_getitem_Ok r _ values) by by apply Forall2_fmap_l.
    cbn [mbind result_bind]. by rewrite (getitem_Some _ _ _ Ht).
  - apply in_order_lines. by eapply Forall2_length.
Qed.

(** C6.  A record that lacks a required field gives no Document: the
    loader raises [KeyError] for the first missing field, and the loop over
    the records ends there. *)
Theorem missing_field_raises (k : kind) (r : record) (present : list text) (missing : text)
    (rest : list text) :
  (fields_of k).*2 = present ++ missing :: rest →
  Forall (λ key, is_Some (r !! key)) present →
  r !! missing = None →
  doc_of k r = Raise (KeyError missing)
  ∧ ∀ before after docs,
      for_each (doc_of k) before = Ok docs →
      for_each (doc_of k) (before ++ r :: after) = Raise (KeyError missing).
Proof.
  intros Hk Hp Hm.
  assert (doc_of k r = Raise (KeyError missing)) as H.
  { rewrite doc_of_table. unfold render_record.
    by rewrite Hk, for_each_getitem_missing. }
  split; [done |]. intros before after docs Hb. by eapply for_each_app_Raise.
Qed.


Lemma record_rendering_witness :
  ∃ d title,
    doc_of Accident sample_accident = Ok d
    ∧ page_content d = join NL (field_lines (fields_of Accident) sample_values)
    ∧ in_order (format_value <$> sample_values) (page_content d)
    ∧ sample_accident !! u "title" = Some title
    ∧ metadata d = {[ u "type" := VStr (tag_of Accident); u "title" := title ]}.
Proof.
  apply (record_rendering Accident sample_accident sample_values).
  repeat (apply Forall2_cons; split; [vm_compute; reflexivity |]).
  apply Forall2_nil_2.
Defined.

Lemma missing_field_raises_witness :
  doc_of Accident (delete (u "damage") sample_accident) = Raise (KeyError (u "damage")).
Proof.
  refine (proj1 (missing_field_raises Accident (delete (u "damage") sample_accident)
    [u "title"; u "date"; u "location"; u "industry"; u "work_type"; u "accident_type"]
    (u "damage")
    [u "summary"; u "direct_cause"; u "root_cause"; u "risk_keywords"; u "prevention"]
    _ _ _)).
  - reflexivity.
  - repeat (apply Forall_cons; split; [vm_compute; eexists; reflexivity |]).
    apply Forall_nil_2.
  - vm_compute. reflexivity.
Defined.

(** ** The chunking script *)

Lemma run_script_Exception (script : io unit) e :
  outcome script = Raise e → is_Exception e = true →
  run_script script = MkProcess (trace script ++ [Traceback e]) 1.
Proof. unfold run_script. intros ->. by destruct e. Qed.

(** A failing load is caught inside [chunk_pdf]. *)
Lemma chunk_pdf_load_fails w pdf_path output_path e :
  is_Exception e = true → pdf_load w pdf_path = Raise e →
  chunk_pdf w pdf_path output_path
  = IO [Stdout (u "PDF 파일 로드 중: " ++ pdf_path);
        Stdout (u "PDF 청킹 오류: " ++ exn_str e)] (Ok 0).
Proof.
  intros He Hload. unfold chunk_pdf, try_except.
  rewrite bind_print, Hload, bind_call_Raise.
  cbn [outcome trace]. by rewrite He.
Qed.

Lemma chunk_pdf_succeeds w pdf_path output_path documents chunked :
  pdf_load w pdf_path = Ok documents →
  split_documents w 800 100 (Some chunk_separators) documents = Ok chunked →
  json_dump w output_path (imap chunk_dict chunked) = Ok tt →
  chunk_pdf w pdf_path output_path
  = IO [Stdout (u "PDF 파일 로드 중: " ++ pdf_path);
        Stdout (u "PDF 페이지 수: " ++ str_nat (length documents));
        Stdout (u "총 청크 개수: " ++ str_nat (length chunked));
        WriteJson output_path (imap chunk_dict chunked);
        Stdout (u "청킹 완료: " ++ output_path);
        Stdout (u "총 " ++ str_nat (length chunked) ++ u "개 청크 생성")]
       (Ok (length chunked)).
Proof.
  intros Hload Hsplit Hdump. unfold chunk_pdf, try_except.
  rewrite bind_print, Hload, bind_call_Ok.
  rewrite bind_print, Hsplit, bind_call_Ok.
  rewrite bind_print. cbv zeta. rewrite Hdump, bind_call_Ok.
  rewrite bind_emit, !bind_print. cbn [outcome trace mret io_ret].
  by rewrite length_imap.
Qed.

Lemma chunking_main_three w argv :
  length argv = 3 →
  chunking_main w argv
  = (chunk_count ← chunk_pdf w (nth 1 argv []) (nth 2 argv []);
     print (u "완료: " ++ str_nat chunk_count ++ u "개 청크")).
Proof.
  intros Hl. unfold chunking_main. rewrite decide_False by lia.
  cbv zeta. unfold mbind at 1, io_bind at 1. cbn [outcome trace mret io_ret].
  by destruct (_ ≫= _).
Qed.

(** C8.  With an argument count other than two the script prints the usage
    line and exits with status 1.  With two arguments, when the PDF loads,
    the splitter returns and the output file is written, it prints the
    progress lines, the count of the chunks it wrote (twice, from
    [chunk_pdf] and from the main block) and ends with status 0. *)
Theorem chunking_command_line w (argv : list text) :
  (length argv ≠ 3 → run_script (chunking_main w argv) = MkProcess [Stdout usage] 1)
  ∧ (∀ documents chunked,
       length argv = 3 →
       pdf_load w (nth 1 argv []) = Ok documents →
       split_documents w 800 100 (Some chunk_separators) documents = Ok chunked →
       json_dump w (nth 2 argv []) (imap chunk_dict chunked) = Ok tt →
       run_script (chunking_main w argv)
       = MkProcess
           [Stdout (u "PDF 파일 로드 중: " ++ nth 1 argv []);
            Stdout (u "PDF 페이지 수: " ++ str_nat (length documents));
            Stdout (u "총 청크 개수: " ++ str_nat (length chunked));
            WriteJson (nth 2 argv []) (imap chunk_dict chunked);
            Stdout (u "청킹 완료: " ++ nth 2 argv []);
            Stdout (u "총 " ++ str_nat (length chunked) ++ u "개 청크 생성");
            Stdout (u "완료: " ++ str_nat (length chunked) ++ u "개 청크")]
           0).
Proof.
  split.
  - intros Hl. unfold chunking_main. by rewrite decide_True.
  - intros documents chunked Hl Hload Hsplit Hdump.
    rewrite chunking_main_three by done.
    by rewrite (chunk_pdf_succeeds _ _ _ _ _ Hload Hsplit Hdump).
Qed.

Lemma chunking_command_line_witness :
  run_script (chunking_main paged_world [u "pdf_chunking.py"]) = MkProcess [Stdout usage] 1
  ∧ run_script (chunking_main paged_world sample_argv)
    = MkProcess
        [Stdout (u "PDF 파일 로드 중: missing.pdf");
         Stdout (u "PDF 페이지 수: 2");
         Stdout (u "총 청크 개수: 2");
         WriteJson (u "chunks.json") (imap chunk_dict two_pages);
         Stdout (u "청킹 완료: chunks.json");
         Stdout (u "총 2개 청크 생성");
         Stdout (u "완료: 2개 청크")]
        0.
Proof.
  split.
  - apply (proj1 (chunking_command_line paged_world [u "pdf_chunking.py"])).
    simpl. lia.
  - apply (proj2 (chunking_command_line paged_world sample_argv) two_pages two_pages);
      reflexivity.
Defined.

(** C7 (as amended).  A file that cannot be loaded ends the builder script
    at once: the exception is not caught, the run is reported with a
    traceback after the count lines of the sections already done, the status
    is 1 and nothing is persisted.  The chunking script catches the failure
    inside [chunk_pdf]: it prints the error, takes the count to be 0, prints
    its closing line and ends normally, with status 0 and no output file. *)
Theorem missing_input_outcomes w e :
  is_Exception e = true →
  (∀ script pdf_path output_path,
     pdf_load w pdf_path = Raise e →
     run_script (chunking_main w [script; pdf_path; output_path])
     = MkProcess [Stdout (u "PDF 파일 로드 중: " ++ pdf_path);
                  Stdout (u "PDF 청킹 오류: " ++ exn_str e);
                  Stdout (u "완료: 0개 청크")] 0)
  ∧ (json_load w ACCIDENT_JSON = Raise e →
     run_script (build_safety_rag_db w) = MkProcess [Traceback e] 1)
  ∧ (∀ accident_docs,
       load_accidents w = IO [Stdout (u "[INFO] 사고사례 로드 완료: "
                                     ++ str_nat (length accident_docs) ++ u "건")]
                             (Ok accident_docs) →
       json_load w EDUCATION_JSON = Raise e →
       run_script (build_safety_rag_db w)
       = MkProcess [Stdout (u "[INFO] 사고사례 로드 완료: "
                           ++ str_nat (length accident_docs) ++ u "건");
                    Traceback e] 1)
  ∧ (∀ accident_docs edu_docs,
       load_accidents w = IO [Stdout (u "[INFO] 사고사례 로드 완료: "
                                     ++ str_nat (length accident_docs) ++ u "건")]
                             (Ok accident_docs) →
       load_education w = IO [Stdout (u "[INFO] 교육자료 로드 완료: "
                                     ++ str_nat (length edu_docs) ++ u "건")]
                             (Ok edu_docs) →
       pdf_load w LAW_PDF = Raise e →
       run_script (build_safety_rag_db w)
       = MkProcess [Stdout (u "[INFO] 사고사례 로드 완료: "
                           ++ str_nat (length accident_docs) ++ u "건");
                    Stdout (u "[INFO] 교육자료 로드 완료: "
                           ++ str_nat (length edu_docs) ++ u "건");
                    Traceback e] 1).
Proof.
  intros He. repeat split.
  - intros script pdf_path output_path Hload.
    rewrite chunking_main_three by done. cbn [nth].
    by rewrite (chunk_pdf_load_fails _ _ _ _ He Hload).
  - intros Hload. unfold build_safety_rag_db, load_accidents. rewrite Hload.
    by rewrite (run_script_Exception _ e).
  - intros accident_docs Hacc Hload.
    unfold build_safety_rag_db. rewrite Hacc.
    unfold load_education. rewrite Hload.
    by rewrite (run_script_Exception _ e).
  - intros accident_docs edu_docs Hacc Hedu Hload.
    unfold build_safety_rag_db. rewrite Hacc, Hedu.
    unfold load_law. rewrite Hload.
    by rewrite (run_script_Exception _ e).
Qed.

Lemma missing_input_outcomes_witness :
  run_script (chunking_main empty_world [u "pdf_chunking.py"; u "missing.pdf"; u "chunks.json"])
  = MkProcess [Stdout (u "PDF 파일 로드 중: " ++ u "missing.pdf");
               Stdout (u "PDF 청킹 오류: " ++ exn_str no_file);
               Stdout (u "완료: 0개 청크")] 0
  ∧ run_script (build_safety_rag_db empty_world) = MkProcess [Traceback no_file] 1.
Proof.
  pose proof (missing_input_outcomes empty_world no_file eq_refl) as (H1 & H2 & _).
  split.
  - exact (H1 (u "pdf_chunking.py") (u "missing.pdf") (u "chunks.json") eq_refl).
  - exact (H2 eq_refl).
Defined.

(** A PDF that does not exist: the chunking script does not abort, it ends
    with status 0 after its closing line. *)
Lemma missing_pdf_completes :
  pdf_load empty_world (nth 1 sample_argv []) = Raise no_file
  ∧ ¬ aborted (run_script (chunking_main empty_world sample_argv))
  ∧ last (events (run_script (chunking_main empty_world sample_argv)))
    = Some (Stdout (u "완료: 0개 청크")).
Proof.
  split; [reflexivity |]. split; [| by vm_compute].
  unfold aborted. by vm_compute.
Qed.

(** * Further properties *)

(** ** More on the segmentation *)

Lemma concat_segments s : concat (segments s) = next_marker s.
Proof.
  induction s as [|x s IH]; [done |]. simpl.
  destruct (marker_at (x :: s)); [| done]. simpl.
  rewrite IH. f_equal. symmetry. apply before_next.
Qed.

Lemma count_before_marker s : count_markers (before_marker s) = 0.
Proof.
  induction s as [|x s IH]; [done |]. simpl.
  destruct (marker_at (x :: s)) eqn:E; [done |]. simpl. rewrite IH.
  destruct (next_marker_cases s) as [Hn | Hn].
  - pose proof (before_next s) as Hs. rewrite Hn, app_nil_r in Hs.
    by rewrite <- Hs, E.
  - pose proof (before_next s) as Hs.
    destruct (next_marker s) as [|c t]; [done |].
    apply marker_at_head in Hn as ->.
    rewrite Hs in E. change (x :: before_marker s ++ JE :: t)
      with ((x :: before_marker s) ++ JE :: t) in E.
    rewrite marker_at_before_JE in E. by rewrite E.
Qed.

(** X1.  The matches of [re.findall] are consecutive pieces of the text:
    put one after the other they give back the text from its first marker
    to its end, and what precedes them holds no marker. *)
Theorem findall_covers text :
  ∃ pre, ¬ contains_marker pre ∧ text = pre ++ concat (findall true pattern text).
Proof.
  exists (before_marker text). split.
  - apply count_markers_0_spec, count_before_marker.
  - rewrite findall_pattern, concat_segments. apply before_next.
Qed.

Lemma segments_one_marker s :
  Forall (λ m, ∃ ds b, ds ≠ [] ∧ all_decimal ds = true
                       ∧ m = marker ds ++ b ∧ count_markers b = 0)
         (segments s).
Proof.
  induction s as [|x s IH]; simpl; [done |].
  destruct (marker_at (x :: s)) eqn:E; [| done]. constructor; [| done].
  unfold marker_at in E. destruct (marker_end (x :: s)) as [rest|] eqn:E'; [| done].
  apply marker_end_inv in E' as (ds & Hne & Hds & Hs).
  rewrite marker_app in Hs. injection Hs as Hx Hs. subst x s.
  destruct (skip_no_JE (ds ++ [JO]) rest) as (-> & _); [by apply marker_tail_no_JE |].
  exists ds, (before_marker rest). rewrite <- marker_app.
  split; [done |]. split; [done |]. split; [done |]. apply count_before_marker.
Qed.

(** X2.  Every match of the clause pattern starts with a marker and holds
    no other marker. *)
Theorem findall_one_marker_each text :
  Forall (λ m, marker_at m = true ∧ count_markers m = 1) (findall true pattern text).
Proof.
  rewrite findall_pattern.
  eapply Forall_impl; [apply segments_one_marker |].
  intros m (ds & b & Hne & Hds & -> & Hb). split.
  - by apply marker_at_marker.
  - rewrite count_markers_marker by done. by rewrite Hb.
Qed.

(** *** White space at the ends of a Document *)

Lemma lstrip_head s c : head (lstrip s) = Some c → is_space c = false.
Proof.
  induction s as [|x s IH]; simpl; [done |].
  destruct (is_space x) eqn:E; [done |]. simpl. by intros [= <-].
Qed.

Lemma last_rev {A : Type} (l : list A) : last (rev l) = head l.
Proof. destruct l as [|x l]; [done |]. simpl. apply last_snoc. Qed.

Lemma rstrip_last s c : last (rstrip s) = Some c → is_space c = false.
Proof. unfold rstrip. rewrite last_rev. apply lstrip_head. Qed.

Lemma last_marker_app ds b c :
  last (marker ds ++ rstrip b) = Some c → is_space c = false.
Proof.
  destruct (rstrip b) as [|y t] eqn:E.
  - rewrite app_nil_r. unfold marker.
    change (JE :: ds ++ [JO]) with ((JE :: ds) ++ [JO]). rewrite last_snoc.
    by intros [= <-].
  - rewrite last_app. rewrite <- E.
    destruct (last (rstrip b)) as [z|] eqn:El.
    + intros [= <-]. by apply (rstrip_last b).
    + rewrite E in El. by apply last_None in El.
Qed.

(** X3.  The text of a law Document starts with its marker and does not end
    with white space, whatever the regulation text. *)
Theorem law_doc_text_trimmed text :
  Forall (λ d, (∃ ds body, ds ≠ [] ∧ all_decimal ds = true
                           ∧ page_content d = marker ds ++ body)
               ∧ ∀ c, last (page_content d) = Some c → is_space c = false)
         (law_docs_of text).
Proof.
  unfold law_docs_of. rewrite findall_pattern. apply Forall_fmap.
  eapply Forall_impl; [apply segments_start |].
  intros m (ds & b & Hne & Hds & ->). unfold compose.
  rewrite law_doc_segment by done. cbn [page_content]. split.
  - by exists ds, (rstrip b).
  - intros c. apply last_marker_app.
Qed.

(** *** The title of a Document *)

Lemma lstrip_app_gen a b :
  lstrip (a ++ b) = match lstrip a with [] => lstrip b | l => l ++ b end.
Proof.
  induction a as [|x a IH]; simpl; [by destruct (lstrip b) |].
  by destruct (is_space x).
Qed.

Lemma rstrip_app_gen x y :
  rstrip (x ++ y) = match rstrip y with [] => rstrip x | l => x ++ l end.
Proof.
  unfold rstrip. rewrite rev_app_distr, lstrip_app_gen.
  destruct (lstrip (rev y)) as [|c l]; [done |].
  rewrite rev_app_distr, rev_involutive.
  simpl. by destruct (rev l).
Qed.

Lemma rstrip_prefix s : ∃ ws, s = rstrip s ++ ws.
Proof. destruct (rstrip_spec s) as (ws & _ & H). by exists ws. Qed.

Lemma first_line_spec b :
(NL ∉ hd [] (split NL b))
  ∧ (b = hd [] (split NL b) ∨ ∃ r, b = hd [] (split NL b) ++ NL :: r).
Proof.
  induction b as [|c b [IH1 IH2]]; simpl.
  - split; [apply not_elem_of_nil | by left].
  - destruct (decide (c = NL)) as [-> | Hc]; simpl.
    + split; [apply not_elem_of_nil | right; by exists b].
    + pose proof (split_not_nil NL b) as Hne.
      destruct (split NL b) as [|p ps]; [done |]. simpl in *. split.
      * rewrite not_elem_of_cons. by split.
      * destruct IH2 as [-> | [r ->]]; [by left | right; by exists r].
Qed.

Lemma rstrip_first_line b :
  ∃ rest, rstrip b = rstrip (hd [] (split NL b)) ++ rest.
Proof.
  destruct (first_line_spec b) as [_ H].
  generalize dependent (hd [] (split NL b)). intros fl [<- | [r ->]].
  - exists []. by rewrite app_nil_r.
  - rewrite rstrip_app_gen.
    destruct (rstrip (NL :: r)) as [|c l]; [exists []; by rewrite app_nil_r |].
    destruct (rstrip_prefix fl) as [ws Hws].
    exists (ws ++ c :: l). rewrite app_assoc. by rewrite <- Hws.
Qed.

(** X4.  The title of a law Document is the head of its text: it starts
    with the marker, holds no line feed and is a prefix of the text. *)
Theorem law_doc_title text :
  Forall (λ d, ∃ ds t rest,
            ds ≠ [] ∧ all_decimal ds = true
            ∧ metadata d !! u "title" = Some (VStr (marker ds ++ t))
            ∧ (NL ∉ marker ds ++ t)
            ∧ page_content d = (marker ds ++ t) ++ rest)
         (law_docs_of text).
Proof.
  unfold law_docs_of. rewrite findall_pattern. apply Forall_fmap.
  eapply Forall_impl; [apply segments_start |].
  intros m (ds & b & Hne & Hds & ->). unfold compose.
  rewrite law_doc_segment by done. cbn [page_content metadata].
  destruct (rstrip_first_line b) as [rest Hrest].
  exists ds, (rstrip (hd [] (split NL b))), rest.
  split; [done |]. split; [done |]. split; [| split].
  - rewrite lookup_insert_ne by (by vm_compute).
    rewrite lookup_insert_ne by (by vm_compute).
    by rewrite lookup_insert_eq.
  - rewrite elem_of_app. intros [H | H].
    + pose proof (marker_no_NL ds Hds) as Hm.
      rewrite Forall_forall in Hm. by apply (Hm NL).
    + destruct (first_line_spec b) as [Hfl _]. apply Hfl.
      destruct (rstrip_prefix (hd [] (split NL b))) as [ws Hws].
      rewrite Hws. apply elem_of_app. by left.
  - by rewrite <- app_assoc, Hrest.
Qed.

(** *** Markers and pages *)

Lemma marker_at_before_sep z c x s :
  is_decimal z = false → z ≠ JO →
  marker_at ((c :: x) ++ z :: s) = marker_at (c :: x).
Proof.
  intros Hz Hzo. unfold marker_at, marker_end. simpl.
  destruct x as [|d x]; simpl.
  - rewrite Hz. by destruct (decide (c = JE)).
  - destruct (decide (c = JE)); [| done]. destruct (is_decimal d); [| done].
    assert (skip_digits (x ++ z :: s) = skip_digits x ++ z :: s) as ->.
    { clear -Hz. induction x as [|y x IH]; simpl.
      - by rewrite Hz.
      - by destruct (is_decimal y). }
    destruct (skip_digits x) as [|j r]; simpl; [| by destruct (decide (j = JO))].
    by rewrite decide_False.
Qed.

Lemma count_markers_app_NL x s :
  count_markers (x ++ NL :: s) = count_markers x + count_markers s.
Proof.
  induction x as [|c x IH].
  - simpl. by rewrite marker_at_not_JE.
  - change (count_markers ((c :: x) ++ NL :: s))
      with ((if marker_at ((c :: x) ++ NL :: s) then 1 else 0)
            + count_markers (x ++ NL :: s)).
    rewrite marker_at_before_sep by done. rewrite IH. simpl. lia.
Qed.

Lemma count_markers_join pages :
  count_markers (join NL pages) = sum_list (count_markers <$> pages).
Proof.
  induction pages as [|p ps IH]; [done |].
  destruct ps as [|q ps].
  - simpl. lia.
  - change (join NL (p :: q :: ps)) with (p ++ NL :: join NL (q :: ps)).
    rewrite count_markers_app_NL, IH. done.
Qed.

(** X5.  The law section gives one Document per marker occurrence, and the
    occurrences are counted page by page: joining the pages with line feeds
    neither makes a marker nor hides one.  The count line shows this
    number. *)
Theorem load_law_counts w documents :
  pdf_load w LAW_PDF = Ok documents →
  ∃ law_docs,
    load_law w = IO [Stdout (u "[INFO] 법령 로드 완료: "
                             ++ str_nat (length law_docs) ++ u "조")] (Ok law_docs)
    ∧ length law_docs = sum_list ((count_markers ∘ page_content) <$> documents).
Proof.
  intros Hload.
  exists (law_docs_of (join NL (page_content <$> documents))). split.
  - unfold load_law. by rewrite Hload, bind_call_Ok.
  - rewrite law_docs_of_length, count_markers_join. by rewrite <- list_fmap_compose.
Qed.

(** ** More on the record loaders *)

Lemma for_each_Ok_iff {A B : Type} (f : A → result B) l docs :
  for_each f l = Ok docs ↔ Forall2 (λ a b, f a = Ok b) l docs.
Proof.
  revert docs. induction l as [|a l IH]; intros docs; simpl.
  - split; [intros [= <-]; constructor | by intros ->%Forall2_nil_inv_l].
  - destruct (f a) as [b|e] eqn:Ea; simpl.
    + destruct (for_each f l) as [bs|e] eqn:El; simpl.
      * split.
        -- intros [= <-]. constructor; [done | by apply IH].
        -- intros (b' & bs' & Hb & Hbs & ->)%Forall2_cons_inv_l.
           apply IH in Hbs. unfold mret, result_ret. congruence.
      * split; [done |].
        intros (b' & bs' & Hb & Hbs & ->)%Forall2_cons_inv_l.
        apply IH in Hbs. congruence.
    + split; [done |].
      intros (b' & bs' & Hb & Hbs & ->)%Forall2_cons_inv_l. congruence.
Qed.

Lemma values_of_present (r : record) (keys : list text) :
  Forall (λ key, is_Some (r !! key)) keys →
  ∃ values, Forall2 (λ key v, r !! key = Some v) keys values.
Proof.
  induction 1 as [|key keys [v Hv] _ [values IH]].
  - by exists [].
  - exists (v :: values). by constructor.
Qed.

Lemma title_is_field (k : kind) : u "title" ∈ (fields_of k).*2.
Proof. destruct k; apply list_elem_of_here. Qed.

(** The Document of a record whose fields have the values [values]. *)
Lemma doc_of_values (k : kind) (r : record) (values : list value) :
  Forall2 (λ key v, r !! key = Some v) ((fields_of k).*2) values →
  ∃ title,
    r !! u "title" = Some title
    ∧ doc_of k r
      = Ok (MkDocument (join NL (field_lines (fields_of k) values))
              {[ u "type" := VStr (tag_of k); u "title" := title ]}).
Proof.
  intros H.
  assert (∃ title, r !! u "title" = Some title) as [title Ht].
  { destruct k; apply Forall2_cons_inv_l in H as (v & ? & Hv & _); by exists v. }
  exists title. split; [done |].
  rewrite doc_of_table. unfold render_record.
  rewrite (for_each_getitem_Ok r _ values) by done.
  cbn [mbind result_bind]. by rewrite (getitem_Some _ _ _ Ht).
Qed.

Lemma complete_doc (k : kind) (r : record) : complete k r → ∃ d, doc_of k r = Ok d.
Proof.
  intros Hc. destruct (values_of_present r _ Hc) as [values Hv].
  destruct (doc_of_values k r values Hv) as (title & _ & ->). by eexists.
Qed.

Lemma complete_docs (k : kind) (records : list record) :
  Forall (complete k) records →
  ∃ docs, Forall2 (λ r d, doc_of k r = Ok d) records docs.
Proof.
  induction 1 as [|r records Hr _ [docs IH]]; [by exists [] |].
  destruct (complete_doc k r Hr) as [d Hd]. exists (d :: docs). by constructor.
Qed.

Lemma load_of_unfold (k : kind) (w : world) :
  load_of k w
  = (records ← call (json_load w (file_of k));
     docs ← call (for_each (doc_of k) records);
     print (loaded_line k (length docs));;
     mret docs).
Proof.
  destruct k.
  - unfold load_of, file_of, doc_of, load_accidents, loaded_line. reflexivity.
  - unfold load_of, file_of, doc_of, load_education, loaded_line. reflexivity.
Qed.

(** X6.  When the file holds complete records only, a loader gives exactly
    one Document per record, in the order of the file, and prints one line
    with the number of records. *)
Theorem load_complete_records (k : kind) (w : world) (records : list record) :
  json_load w (file_of k) = Ok records →
  Forall (complete k) records →
  ∃ docs,
    load_of k w = IO [Stdout (loaded_line k (length records))] (Ok docs)
    ∧ Forall2 (λ r d, doc_of k r = Ok d) records docs.
Proof.
  intros Hload Hc.
  destruct (complete_docs k records Hc) as [docs Hd].
  exists docs. split; [| done].
  rewrite load_of_unfold, Hload, bind_call_Ok.
  rewrite (proj2 (for_each_Ok_iff _ _ _) Hd), bind_call_Ok.
  by rewrite (Forall2_length _ _ _ Hd).
Qed.

Lemma first_missing (r : record) (keys : list text) :
  ¬ Forall (λ key, is_Some (r !! key)) keys →
  ∃ present missing rest,
    keys = present ++ missing :: rest
    ∧ Forall (λ key, is_Some (r !! key)) present ∧ r !! missing = None.
Proof.
  induction keys as [|key keys IH]; intros H.
  - by destruct H.
  - destruct (r !! key) as [v|] eqn:E.
    + destruct IH as (present & missing & rest & -> & Hp & Hm).
      { intros Hk. apply H. constructor; [by rewrite E | done]. }
      exists (key :: present), missing, rest.
      split; [done |]. split; [| done]. constructor; [by rewrite E | done].
    + by exists [], key, keys.
Qed.

(** X7.  One incomplete record stops a loader: [KeyError] names a field the
    record lacks, the Documents made so far are dropped and no count line is
    printed.  In the accident file this ends the whole build with a
    traceback as its only output. *)
Theorem incomplete_record_stops_load (k : kind) (w : world) (before : list record) (r : record)
    (after : list record) :
  json_load w (file_of k) = Ok (before ++ r :: after) →
  Forall (complete k) before →
  ¬ complete k r →
  ∃ missing,
    missing ∈ (fields_of k).*2 ∧ r !! missing = None
    ∧ load_of k w = IO [] (Raise (KeyError missing))
    ∧ (k = Accident →
       run_script (build_safety_rag_db w) = MkProcess [Traceback (KeyError missing)] 1).
Proof.
  intros Hload Hb Hr.
  destruct (first_missing r _ Hr) as (present & missing & rest & Hk & Hp & Hm).
  assert (doc_of k r = Raise (KeyError missing)) as Hdoc.
  { rewrite doc_of_table. unfold render_record.
    by rewrite Hk, for_each_getitem_missing. }
  assert (∃ docs, for_each (doc_of k) before = Ok docs) as [docs Hdocs].
  { destruct (complete_docs k before Hb) as [docs Hd].
    exists docs. by apply for_each_Ok_iff. }
  assert (load_of k w = IO [] (Raise (KeyError missing))) as Hl.
  { rewrite load_of_unfold, Hload, bind_call_Ok.
    by rewrite (for_each_app_Raise _ _ _ _ _ _ Hdocs Hdoc). }
  exists missing. split; [| split; [done | split; [done |]]].
  - rewrite Hk. apply elem_of_app. right. apply list_elem_of_here.
  - intros ->. unfold build_safety_rag_db.
    change (load_accidents w) with (load_of Accident w). by rewrite Hl.
Qed.

Lemma for_each_getitem_agree (r r' : record) (keys : list text) :
  Forall (λ key, r !! key = r' !! key) keys →
  for_each (getitem r) keys = for_each (getitem r') keys.
Proof.
  induction 1 as [|key keys Hk _ IH]; [done |].
  cbn [for_each].
  assert (getitem r key = getitem r' key) as -> by (unfold getitem; by rewrite Hk).
  by rewrite IH.
Qed.

(** X8.  A loader reads the fields of its table and nothing else: two
    records that agree on these fields give the same result, Document or
    exception, whatever other keys they hold. *)
Theorem loader_ignores_other_keys (k : kind) (r r' : record) :
  Forall (λ key, r !! key = r' !! key) ((fields_of k).*2) →
  doc_of k r = doc_of k r'.
Proof.
  intros H. rewrite !doc_of_table. unfold render_record.
  rewrite (for_each_getitem_agree r r') by done.
  assert (getitem r (u "title") = getitem r' (u "title")) as ->; [| done].
  unfold getitem. rewrite Forall_forall in H.
  by rewrite (H _ (title_is_field k)).
Qed.

Lemma split_no_NL l : NL ∉ l → split NL l = [l].
Proof.
  induction l as [|c l IH]; [done |]. rewrite not_elem_of_cons. intros [Hc Hl].
  simpl. rewrite decide_False by done. by rewrite IH.
Qed.

Lemma split_app_NL l s : NL ∉ l → split NL (l ++ NL :: s) = l :: split NL s.
Proof.
  induction l as [|c l IH]; simpl.
  - intros _. by try rewrite decide_True.
  - rewrite not_elem_of_cons. intros [Hc Hl].
    rewrite decide_False by done. by rewrite IH.
Qed.

Lemma split_join lines :
  lines ≠ [] → Forall (λ l, NL ∉ l) lines → split NL (join NL lines) = lines.
Proof.
  intros Hne H. induction H as [|l lines Hl Hlines IH]; [done |].
  destruct lines as [|l' lines].
  - simpl. by apply split_no_NL.
  - change (join NL (l :: l' :: lines)) with (l ++ NL :: join NL (l' :: lines)).
    rewrite split_app_NL by done. by rewrite IH.
Qed.

Lemma labels_no_NL (k : kind) : Forall (λ f, NL ∉ f.1) (fields_of k).
Proof. destruct k; repeat constructor; compute_done. Qed.

Lemma field_lines_no_NL fields values :
  Forall (λ f : text * text, NL ∉ f.1) fields →
  Forall (λ v, NL ∉ format_value v) values →
  Forall (λ l, NL ∉ l) (field_lines fields values).
Proof.
  intros Hf. revert values. induction Hf as [|f fields Hf _ IH]; intros values Hv.
  - constructor.
  - destruct Hv as [|v values Hv Hvs]; [constructor |].
    change (field_lines (f :: fields) (v :: values))
      with ((f.1 ++ format_value v) :: field_lines fields values).
    constructor; [| by apply IH].
    rewrite elem_of_app. by intros [? | ?].
Qed.

(** X9.  When no value of a record holds a line feed, the text of its
    Document splits at the line feeds into exactly the labelled lines, one
    per field: the fields can be read back from the text. *)
Theorem record_lines_round_trip (k : kind) (r : record) (values : list value) :
  Forall2 (λ key v, r !! key = Some v) ((fields_of k).*2) values →
  Forall (λ v, NL ∉ format_value v) values →
  ∃ d, doc_of k r = Ok d
       ∧ split NL (page_content d) = field_lines (fields_of k) values.
Proof.
  intros Hv Hnl. destruct (doc_of_values k r values Hv) as (title & _ & ->).
  eexists. split; [done |]. cbn [page_content].
  apply split_join.
  - apply Forall2_length in Hv. rewrite length_fmap in Hv.
    destruct k, values; try done.
  - apply field_lines_no_NL; [apply labels_no_NL | done].
Qed.

(** ** The whole build *)

Ltac io_step :=
  cbn [mbind io_bind outcome trace call print emit mret io_ret app] in *.

Lemma load_of_Ok (k : kind) (w : world) (records : list record) docs :
  json_load w (file_of k) = Ok records →
  for_each (doc_of k) records = Ok docs →
  load_of k w = IO [Stdout (loaded_line k (length records))] (Ok docs).
Proof.
  intros Hload Hdocs. rewrite load_of_unfold, Hload, bind_call_Ok.
  rewrite Hdocs, bind_call_Ok. by rewrite (for_each_length _ _ _ Hdocs).
Qed.

Lemma load_law_Ok (w : world) pages :
  pdf_load w LAW_PDF = Ok pages →
  load_law w
  = IO [Stdout (u "[INFO] 법령 로드 완료: "
                ++ str_nat (count_markers (join NL (page_content <$> pages))) ++ u "조")]
       (Ok (law_docs_of (join NL (page_content <$> pages)))).
Proof.
  intros Hload. unfold load_law. rewrite Hload, bind_call_Ok. cbv zeta.
  by rewrite law_docs_of_length.
Qed.

(** X10.  When every file loads, every record is complete and the splitter
    and the vector store succeed, the build prints the three count lines
    and the total, stores the chunks of the accident cases, then those of
    the education material, then those of the law, and ends with status 0. *)
Theorem build_stores_all_chunks w cases accident_docs items edu_docs pages
    accident_chunks edu_chunks law_chunks :
  json_load w ACCIDENT_JSON = Ok cases →
  for_each accident_doc cases = Ok accident_docs →
  json_load w EDUCATION_JSON = Ok items →
  for_each edu_doc items = Ok edu_docs →
  pdf_load w LAW_PDF = Ok pages →
  split_documents w 1000 100 None accident_docs = Ok accident_chunks →
  split_documents w 1000 100 None edu_docs = Ok edu_chunks →
  split_documents w 1000 100 None (law_docs_of (join NL (page_content <$> pages)))
    = Ok law_chunks →
  chroma_build w (accident_chunks ++ edu_chunks ++ law_chunks) CHROMA_DB_DIR = Ok tt →
  run_script (build_safety_rag_db w)
  = MkProcess
      [Stdout (loaded_line Accident (length cases));
       Stdout (loaded_line Education (length items));
       Stdout (u "[INFO] 법령 로드 완료: "
               ++ str_nat (count_markers (join NL (page_content <$> pages))) ++ u "조");
       Stdout (u "[INFO] 전체 문서 청크 수: "
               ++ str_nat (length accident_chunks + length edu_chunks + length law_chunks));
       Persist CHROMA_DB_DIR (accident_chunks ++ edu_chunks ++ law_chunks);
       Stdout (u "[INFO] ChromaDB 구축 완료 → " ++ CHROMA_DB_DIR)]
      0.
Proof.
  intros Hc Ha Hi He Hp Hsa Hse Hsl Hch.
  pose proof (load_of_Ok Accident w _ _ Hc Ha) as Hla.
  pose proof (load_of_Ok Education w _ _ Hi He) as Hle.
  pose proof (load_law_Ok w _ Hp) as Hll.
  unfold build_safety_rag_db.
  change (load_accidents w) with (load_of Accident w).
  change (load_education w) with (load_of Education w).
  rewrite Hla. io_step. rewrite Hle. io_step. rewrite Hll. io_step.
  rewrite Hsa. io_step. rewrite Hse. io_step. rewrite Hsl. io_step.
  rewrite Hch. io_step.
  unfold run_script. cbn [outcome trace].
  by rewrite !length_app, Nat.add_assoc.
Qed.

(** *** Where the events of a run come from *)









(** ** More on the chunking script *)

Lemma chunk_pdf_split_fails w pdf_path output_path documents e :
  is_Exception e = true → pdf_load w pdf_path = Ok documents →
  split_documents w 800 100 (Some chunk_separators) documents = Raise e →
  chunk_pdf w pdf_path output_path
  = IO [Stdout (u "PDF 파일 로드 중: " ++ pdf_path);
        Stdout (u "PDF 페이지 수: " ++ str_nat (length documents));
        Stdout (u "PDF 청킹 오류: " ++ exn_str e)] (Ok 0).
Proof.
  intros He Hload Hsplit. unfold chunk_pdf, try_except.
  rewrite bind_print, Hload, bind_call_Ok.
  rewrite bind_print, Hsplit, bind_call_Raise.
  cbn [outcome trace]. rewrite He. reflexivity.
Qed.

Lemma chunk_pdf_dump_fails w pdf_path output_path documents chunked e :
  is_Exception e = true → pdf_load w pdf_path = Ok documents →
  split_documents w 800 100 (Some chunk_separators) documents = Ok chunked →
  json_dump w output_path (imap chunk_dict chunked) = Raise e →
  chunk_pdf w pdf_path output_path
  = IO [Stdout (u "PDF 파일 로드 중: " ++ pdf_path);
        Stdout (u "PDF 페이지 수: " ++ str_nat (length documents));
        Stdout (u "총 청크 개수: " ++ str_nat (length chunked));
        Stdout (u "PDF 청킹 오류: " ++ exn_str e)] (Ok 0).
Proof.
  intros He Hload Hsplit Hdump. unfold chunk_pdf, try_except.
  rewrite bind_print, Hload, bind_call_Ok.
  rewrite bind_print, Hsplit, bind_call_Ok.
  rewrite bind_print. cbv zeta. rewrite Hdump, bind_call_Raise.
  cbn [outcome trace]. rewrite He. reflexivity.
Qed.



(** *** Decimal numerals *)

Lemma digits_of_uint_inj d d' : digits_of_uint d = digits_of_uint d' → d = d'.
Proof.
  revert d'. induction d as [|d IH|d IH|d IH|d IH|d IH|d IH|d IH|d IH|d IH|d IH];
    intros [|d'|d'|d'|d'|d'|d'|d'|d'|d'|d']; simpl; intros H;
    try discriminate H; try reflexivity;
    injection H as H; f_equal; by apply IH.
Qed.

Lemma str_nat_inj n m : str_nat n = str_nat m → n = m.
Proof.
  unfold str_nat. intros H%digits_of_uint_inj.
  rewrite <- (Unsigned.of_to n), <- (Unsigned.of_to m). by rewrite H.
Qed.

(** *** The chunk objects *)

Lemma numbered_inj (prefix : text) i j :
  prefix ++ str_nat (i + 1) = prefix ++ str_nat (j + 1) → i = j.
Proof. intros H%app_inv_head%str_nat_inj. lia. Qed.

Lemma chunk_title_inj : Inj (=) (=) chunk_title.
Proof. intros i j. apply numbered_inj. Qed.

(** X13.  The chunk objects written by the script are numbered 0, 1, 2, ...
    in the order of the splitter's chunks, keep the text of each chunk
    unchanged, and have pairwise different titles. *)
Theorem chunk_objects_numbered (chunked_docs : list Document) :
  chunk_id <$> imap chunk_dict chunked_docs = seq 0 (length chunked_docs)
  ∧ content <$> imap chunk_dict chunked_docs = page_content <$> chunked_docs
  ∧ NoDup (title <$> imap chunk_dict chunked_docs).
Proof.
  split; [| split].
  - rewrite fmap_imap.
    rewrite (imap_ext _ (λ j _, j))
      by (intros; unfold compose, chunk_dict; cbn [chunk_id]; reflexivity).
    by rewrite imap_seq_0, list_fmap_id.
  - rewrite fmap_imap.
    rewrite (imap_ext _ (const page_content))
      by (intros; unfold compose, chunk_dict; cbn [content]; reflexivity).
    apply imap_const.
  - rewrite fmap_imap.
    rewrite (imap_ext _ (λ j _, chunk_title j))
      by (intros; unfold compose, chunk_dict, chunk_title; cbn [title]; reflexivity).
    rewrite imap_seq_0. apply (@NoDup_fmap_2 _ _ chunk_title chunk_title_inj), NoDup_seq.
Qed.

Lemma chunk_pdf_returns w pdf_path output_path :
  raises_exceptions w → ∃ n, outcome (chunk_pdf w pdf_path output_path) = Ok n.
Proof.
  intros (_ & Hpdf & Hsplit & Hdump & _).
  destruct (pdf_load w pdf_path) as [documents|e] eqn:El.
  - destruct (split_documents w 800 100 (Some chunk_separators) documents)
      as [chunked|e] eqn:Es.
    + destruct (json_dump w output_path (imap chunk_dict chunked)) as [[]|e] eqn:Ed.
      * rewrite (chunk_pdf_succeeds _ _ _ _ _ El Es Ed). by eexists.
      * rewrite (chunk_pdf_dump_fails _ _ _ _ _ _ (Hdump _ _ _ Ed) El Es Ed). by eexists.
    + rewrite (chunk_pdf_split_fails _ _ _ _ _ (Hsplit _ _ _ _ _ Es) El Es). by eexists.
  - rewrite (chunk_pdf_load_fails _ _ _ _ (Hpdf _ _ El) El). by eexists.
Qed.

(** X14.  The exit status of the chunking script tells a wrong command line
    from a right one and nothing else: it is 1 for an argument count other
    than two and 0 otherwise, whether the chunking worked or not. *)
Theorem chunking_exit_status w (argv : list text) :
  raises_exceptions w →
  exit_status (run_script (chunking_main w argv))
  = if decide (length argv = 3) then 0%Z else 1%Z.
Proof.
  intros Hw. destruct (decide (length argv = 3)) as [Hl | Hl].
  - rewrite chunking_main_three by done.
    destruct (chunk_pdf_returns w (nth 1 argv []) (nth 2 argv []) Hw) as [n Ho].
    unfold run_script, mbind, io_bind. by rewrite Ho.
  - unfold chunking_main. by rewrite decide_True.
Qed.

(** ** The extraction test script *)


Lemma take_min3 {A : Type} (pages : list A) :
  take (min 3 (length pages)) pages = take 3 pages.
Proof.
  destruct (decide (3 ≤ length pages)) as [H | H].
  - by rewrite Nat.min_l.
  - rewrite Nat.min_r by lia. rewrite firstn_all. symmetry. apply take_ge. lia.
Qed.

Lemma test_page_ext rw rw' i page :
  (∀ s, py_repr rw s = py_repr rw' s) → test_page rw i page = test_page rw' i page.
Proof.
  intros Hr. unfold test_page. destruct page as [text|e]; [| reflexivity].
  rewrite !bind_call_Ok. destruct text as [|c text]; [reflexivity |].
  by rewrite Hr.
Qed.

Lemma test_pages_ext rw rw' i pages :
  (∀ s, py_repr rw s = py_repr rw' s) → test_pages rw i pages = test_pages rw' i pages.
Proof.
  intros Hr. revert i. induction pages as [|page pages IH]; intros i; [reflexivity |].
  cbn [test_pages]. by rewrite (test_page_ext rw rw' i page Hr), IH.
Qed.

(** X15.  The test script reads the first three pages and no more: two
    files whose first three pages agree give the same run, whatever their
    later pages hold or raise. *)
Theorem test_reads_three_pages rw rw' pdf_path pages pages' :
  read_pages rw pdf_path = Ok pages →
  read_pages rw' pdf_path = Ok pages' →
  (∀ s, py_repr rw s = py_repr rw' s) →
  take 3 pages = take 3 pages' →
  test_pypdf_extraction rw pdf_path = test_pypdf_extraction rw' pdf_path.
Proof.
  intros Hp Hp' Hr Ht. unfold test_pypdf_extraction.
  rewrite Hp, Hp', !bind_call_Ok, !take_min3, Ht.
  by rewrite (test_pages_ext rw rw' 0 (take 3 pages') Hr).
Qed.





(** ** The properties above on sample inputs *)

Lemma sample_accident_complete : complete Accident sample_accident.
Proof.
  unfold complete.
  repeat (apply Forall_cons; split; [vm_compute; eexists; reflexivity |]).
  apply Forall_nil_2.
Qed.

Lemma sample_accident_values :
  Forall2 (λ key v, sample_accident !! key = Some v) ((fields_of Accident).*2) sample_values.
Proof.
  repeat (apply Forall2_cons; split; [vm_compute; reflexivity |]).
  apply Forall2_nil_2.
Qed.

Lemma sample_accident_docs : for_each accident_doc [sample_accident] = Ok [sample_accident_doc].
Proof.
  destruct (doc_of_values Accident sample_accident sample_values sample_accident_values)
    as (title & Ht & Hd).
  assert (sample_accident !! u "title" = Some (VStr (u "추락 사고"))) as Ht'
    by (vm_compute; reflexivity).
  rewrite Ht' in Ht. injection Ht as <-.
  cbn [for_each]. change accident_doc with (doc_of Accident). by rewrite Hd.
Qed.

Lemma raises_exceptions_sample w :
  w = empty_world ∨ w = paged_world ∨ w = full_world → raises_exceptions w.
Proof.
  intros [-> | [-> | ->]]; repeat split; intros;
    unfold empty_world, paged_world, full_world in *;
    cbn [json_load pdf_load split_documents json_dump chroma_build] in *;
    repeat match goal with
           | H : context [decide ?P] |- _ => destruct (decide P)
           end;
    match goal with
    | H : Ok _ = Raise _ |- _ => discriminate H
    | H : Raise _ = Raise _ |- _ => injection H as <-; reflexivity
    end.
Qed.

Lemma load_law_counts_witness :
  ∃ law_docs,
    load_law full_world
    = IO [Stdout (u "[INFO] 법령 로드 완료: " ++ str_nat (length law_docs) ++ u "조")]
         (Ok law_docs)
    ∧ length law_docs = sum_list ((count_markers ∘ page_content) <$> law_pages).
Proof. exact (load_law_counts full_world law_pages eq_refl). Defined.

Lemma load_complete_records_witness :
  ∃ docs,
    load_of Accident full_world
    = IO [Stdout (loaded_line Accident (length [sample_accident]))] (Ok docs)
    ∧ Forall2 (λ r d, doc_of Accident r = Ok d) [sample_accident] docs.
Proof.
  apply (load_complete_records Accident full_world [sample_accident]).
  - reflexivity.
  - apply Forall_cons. split; [apply sample_accident_complete | apply Forall_nil_2].
Defined.

Lemma incomplete_record_stops_load_witness :
  ∃ missing,
    missing ∈ (fields_of Accident).*2
    ∧ delete (u "damage") sample_accident !! missing = None
    ∧ load_of Accident broken_world = IO [] (Raise (KeyError missing))
    ∧ (Accident = Accident →
       run_script (build_safety_rag_db broken_world)
       = MkProcess [Traceback (KeyError missing)] 1).
Proof.
  apply (incomplete_record_stops_load Accident broken_world [sample_accident]
           (delete (u "damage") sample_accident) []).
  - reflexivity.
  - apply Forall_cons. split; [apply sample_accident_complete | apply Forall_nil_2].
  - unfold complete. rewrite Forall_forall. intros H.
    assert (u "damage" ∈ (fields_of Accident).*2) as Hk by compute_done.
    apply H in Hk. vm_compute in Hk. destruct Hk as [v Hv]. discriminate Hv.
Defined.

Lemma loader_ignores_other_keys_witness :
  doc_of Accident sample_accident
  = doc_of Accident (<[u "reporter" := VStr (u "홍길동")]> sample_accident).
Proof.
  apply (loader_ignores_other_keys Accident).
  repeat (apply Forall_cons; split; [vm_compute; reflexivity |]).
  apply Forall_nil_2.
Defined.

Lemma record_lines_round_trip_witness :
  ∃ d, doc_of Accident sample_accident = Ok d
       ∧ split NL (page_content d) = field_lines (fields_of Accident) sample_values.
Proof.
  apply (record_lines_round_trip Accident sample_accident sample_values).
  - apply sample_accident_values.
  - repeat (apply Forall_cons; split; [compute_done |]). apply Forall_nil_2.
Defined.

Lemma build_stores_all_chunks_witness :
  exit_status (run_script (build_safety_rag_db full_world)) = 0%Z.
Proof.
  rewrite (build_stores_all_chunks full_world [sample_accident] [sample_accident_doc]
             [] [] law_pages [sample_accident_doc] []
             (law_docs_of (join NL (page_content <$> law_pages)))).
  - reflexivity.
  - reflexivity.
  - apply sample_accident_docs.
  - reflexivity.
  - reflexivity.
  - reflexivity.
  - reflexivity.
  - reflexivity.
  - reflexivity.
  - reflexivity.
Defined.



Lemma chunking_exit_status_witness :
  exit_status (run_script (chunking_main empty_world sample_argv))
  = if decide (length sample_argv = 3) then 0%Z else 1%Z.
Proof.
  apply (chunking_exit_status empty_world sample_argv).
  apply raises_exceptions_sample. by left.
Defined.

Lemma test_reads_three_pages_witness :
  test_pypdf_extraction long_reader (u "manual.pdf")
  = test_pypdf_extraction short_reader (u "manual.pdf").
Proof.
  apply (test_reads_three_pages long_reader short_reader (u "manual.pdf")
           [Ok (u "제1조 목적"); Ok []; Ok (u "abc"); Raise no_file; Ok (u "x")]
           [Ok (u "제1조 목적"); Ok []; Ok (u "abc")]);
    reflexivity.
Defined.


